(** * telescope_dec: the non-blocking step generator of [src/main.cpp]

    A shallow embedding of the Arduino sketch that drives one stepper
    through a TMC2209: the [Runner] record, the pulse scheduler
    [serviceStepper], the line interpreter [handleLine] and the host
    [loop], followed by the properties of the step/dir/enable signals.

    The sketch targets the Arduino Nano v3 (ATmega328P, avr-gcc), as its
    header says: [int] is 16 bits, [long] is 32 bits, [uint32_t] arithmetic
    wraps modulo 2^32 and [micros()] is a wrapping 32-bit counter.
    Reads of [micros()] are an explicit argument [now]; writes to pins, to
    the serial port and to the driver object are collected as a list of
    [Event]s, in program order. *)

From Stdlib Require Import ZArith List String Ascii Bool Lia.
Import ListNotations.
Open Scope string_scope.
Open Scope list_scope.
Open Scope Z_scope.

(** ** Machine integers *)

Module MachInt.

Definition INT_BITS : Z := 16.
Definition LONG_BITS : Z := 32.

(** Value of a [bits]-wide unsigned integer holding [z]. *)
Definition to_unsigned (bits z : Z) : Z := z mod 2 ^ bits.

(** Value of a [bits]-wide two's complement integer holding [z]. *)
Definition to_signed (bits z : Z) : Z :=
  (z + 2 ^ (bits - 1)) mod 2 ^ bits - 2 ^ (bits - 1).

Definition u8 (z : Z) : Z := to_unsigned 8 z.
Definition u16 (z : Z) : Z := to_unsigned 16 z.
Definition u32 (z : Z) : Z := to_unsigned 32 z.
Definition int32 (z : Z) : Z := to_signed 32 z.
Definition int_ (z : Z) : Z := to_signed INT_BITS z.
Definition long_ (z : Z) : Z := to_signed LONG_BITS z.

Definition INT_MIN : Z := - 2 ^ (INT_BITS - 1).
Definition INT_MAX : Z := 2 ^ (INT_BITS - 1) - 1.
Definition LONG_MIN : Z := - 2 ^ (LONG_BITS - 1).
Definition LONG_MAX : Z := 2 ^ (LONG_BITS - 1) - 1.

(** [(int32_t)(now - deadline) >= 0] on two [uint32_t] operands. *)
Definition deadline_reached (now deadline : Z) : bool :=
  0 <=? int32 (u32 (now - deadline)).

End MachInt.
Import MachInt.

(** ** Outputs of the sketch *)

Inductive Pin : Type := STEP_PIN | DIR_PIN | EN_PIN.

Definition HIGH : bool := true.
Definition LOW : bool := false.
Definition EN_ACTIVE_LOW : bool := true.

(** Calls on the [TMC2209Stepper driver] object made by [handleLine]. *)
Inductive DriverOp : Type :=
| rms_current (mA : Z)
| microsteps (ms : Z)
| en_spreadCycle (b : bool)
| pwm_autoscale (b : bool)
| SGTHRS (v : Z).

Inductive Event : Type :=
| DigitalWrite (p : Pin) (level : bool)
| SerialPrint (s : string)
| SerialPrintNum (n : Z)
| SerialPrintln (s : string)
| SerialPrintlnNum (n : Z)
| Driver (op : DriverOp)
| DumpInfo.

(** ** The [Runner] structure *)

Record Runner : Type := mkRunner {
  enabled : bool;
  continuous : bool;
  dir : bool;
  remaining : Z;          (* long *)
  stepIntervalUs : Z;     (* uint32_t *)
  pulseWidthUs : Z;       (* uint32_t *)
  nextStepUs : Z;         (* uint32_t *)
  stepHigh : bool;
  stepHighUntilUs : Z;    (* uint32_t *)
  lastSps : Z             (* int *)
}.

(** The initialisers of [struct Runner]. *)
Definition run_init : Runner :=
  {| enabled := false; continuous := false; dir := false; remaining := 0;
     stepIntervalUs := 2000; pulseWidthUs := 3; nextStepUs := 0;
     stepHigh := false; stepHighUntilUs := 0; lastSps := 500 |}.

Definition with_enabled (v : bool) (r : Runner) : Runner :=
  mkRunner v (continuous r) (dir r) (remaining r) (stepIntervalUs r)
           (pulseWidthUs r) (nextStepUs r) (stepHigh r) (stepHighUntilUs r)
           (lastSps r).
Definition with_continuous (v : bool) (r : Runner) : Runner :=
  mkRunner (enabled r) v (dir r) (remaining r) (stepIntervalUs r)
           (pulseWidthUs r) (nextStepUs r) (stepHigh r) (stepHighUntilUs r)
           (lastSps r).
Definition with_dir (v : bool) (r : Runner) : Runner :=
  mkRunner (enabled r) (continuous r) v (remaining r) (stepIntervalUs r)
           (pulseWidthUs r) (nextStepUs r) (stepHigh r) (stepHighUntilUs r)
           (lastSps r).
Definition with_remaining (v : Z) (r : Runner) : Runner :=
  mkRunner (enabled r) (continuous r) (dir r) v (stepIntervalUs r)
           (pulseWidthUs r) (nextStepUs r) (stepHigh r) (stepHighUntilUs r)
           (lastSps r).
Definition with_stepIntervalUs (v : Z) (r : Runner) : Runner :=
  mkRunner (enabled r) (continuous r) (dir r) (remaining r) v
           (pulseWidthUs r) (nextStepUs r) (stepHigh r) (stepHighUntilUs r)
           (lastSps r).
Definition with_nextStepUs (v : Z) (r : Runner) : Runner :=
  mkRunner (enabled r) (continuous r) (dir r) (remaining r) (stepIntervalUs r)
           (pulseWidthUs r) v (stepHigh r) (stepHighUntilUs r) (lastSps r).
Definition with_stepHigh (v : bool) (r : Runner) : Runner :=
  mkRunner (enabled r) (continuous r) (dir r) (remaining r) (stepIntervalUs r)
           (pulseWidthUs r) (nextStepUs r) v (stepHighUntilUs r) (lastSps r).
Definition with_stepHighUntilUs (v : Z) (r : Runner) : Runner :=
  mkRunner (enabled r) (continuous r) (dir r) (remaining r) (stepIntervalUs r)
           (pulseWidthUs r) (nextStepUs r) (stepHigh r) v (lastSps r).
Definition with_lastSps (v : Z) (r : Runner) : Runner :=
  mkRunner (enabled r) (continuous r) (dir r) (remaining r) (stepIntervalUs r)
           (pulseWidthUs r) (nextStepUs r) (stepHigh r) (stepHighUntilUs r) v.

(** ** A state-and-output monad over the global [run] *)

Definition M (A : Type) : Type := Runner -> A * Runner * list Event.

Definition ret {A : Type} (a : A) : M A := fun st => (a, st, []).

Definition bind {A B : Type} (m : M A) (k : A -> M B) : M B :=
  fun st =>
    let '(a, st1, e1) := m st in
    let '(b, st2, e2) := k a st1 in
    (b, st2, e1 ++ e2).

Definition gets {A : Type} (f : Runner -> A) : M A := fun st => (f st, st, []).
Definition modify (f : Runner -> Runner) : M unit := fun st => (tt, f st, []).
Definition emit (e : Event) : M unit := fun st => (tt, st, [e]).

Definition state_of {A : Type} (r : A * Runner * list Event) : Runner :=
  snd (fst r).
Definition events_of {A : Type} (r : A * Runner * list Event) : list Event :=
  snd r.

Declare Scope runner_scope.
Delimit Scope runner_scope with runner.
Notation "x <- m ;; k" := (bind m (fun x => k))
  (at level 61, m at next level, right associativity) : runner_scope.
Notation "m ;; k" := (bind m (fun _ => k))
  (at level 61, right associativity) : runner_scope.
Open Scope runner_scope.

Definition digitalWrite (p : Pin) (level : bool) : M unit :=
  emit (DigitalWrite p level).

(** ** Motion primitives *)

Definition setEnable (on : bool) : M unit :=
  modify (with_enabled on) ;;
  digitalWrite EN_PIN (if (if EN_ACTIVE_LOW then negb on else on)
                       then HIGH else LOW).

Definition setDir (d : bool) : M unit :=
  modify (with_dir d) ;;
  digitalWrite DIR_PIN (if d then HIGH else LOW).

(** The parameter [sps_abs] is an [int]: it holds the argument narrowed to
    [INT_BITS] bits, and so does the cap assigned to it.  No 16-bit value
    exceeds 40000, so on this target the cap is never taken. *)
Definition setSpeedSps (sps_abs : Z) : M unit :=
  let sps_abs := int_ sps_abs in
  let sps_abs := if sps_abs <? 1 then 1 else sps_abs in
  let sps_abs := if sps_abs >? 40000 then int_ 40000 else sps_abs in
  modify (with_lastSps sps_abs) ;;
  modify (with_stepIntervalUs (u32 (1000000 / u32 sps_abs))) ;;
  interval <- gets stepIntervalUs ;;
  pw <- gets pulseWidthUs ;;
  if interval <? u32 (pw + 4)
  then modify (with_stepIntervalUs (u32 (pw + 4)))
  else ret tt.

(** ** The scheduler tick; [now] is the value read from [micros()] *)

Definition serviceStepper (now : Z) : M unit :=
  high <- gets stepHigh ;;
  if high then
    until <- gets stepHighUntilUs ;;
    if deadline_reached now until then
      digitalWrite STEP_PIN LOW ;;
      modify (with_stepHigh false)
    else ret tt
  else
    en <- gets enabled ;;
    cont <- gets continuous ;;
    rem <- gets remaining ;;
    let shouldStep := en && (cont || (rem >? 0)) in
    if negb shouldStep then ret tt
    else
      next <- gets nextStepUs ;;
      if deadline_reached now next then
        digitalWrite STEP_PIN HIGH ;;
        modify (with_stepHigh true) ;;
        pw <- gets pulseWidthUs ;;
        modify (with_stepHighUntilUs (u32 (now + pw))) ;;
        interval <- gets stepIntervalUs ;;
        modify (with_nextStepUs (u32 (now + interval))) ;;
        cont <- gets continuous ;;
        rem <- gets remaining ;;
        if negb cont && (rem >? 0)
        then modify (with_remaining (rem - 1))
        else ret tt
      else ret tt.

(** ** C library helpers used by the interpreter

    [strtok], [atoi] and [atol] are libc functions; they are written out
    here after the C standard.  An out-of-range [atoi]/[atol] result, which
    the standard leaves undefined, wraps to the width of the result type,
    as avr-libc computes it. *)

Definition is_delim (c : ascii) : bool :=
  (c =? " ")%char || (c =? "009")%char.

Definition isspace (c : ascii) : bool :=
  let n := N_of_ascii c in
  (n =? 32)%N || ((9 <=? n)%N && (n <=? 13)%N).

Definition digit_of (c : ascii) : option Z :=
  let n := Z.of_N (N_of_ascii c) in
  if (48 <=? n) && (n <=? 57) then Some (n - 48) else None.

(** The text of a C string: the characters before the first NUL. *)
Fixpoint c_str (s : string) : string :=
  match s with
  | EmptyString => EmptyString
  | String c s' => if (c =? "000")%char then EmptyString else String c (c_str s')
  end.

(** The pieces of [s] between delimiters, empty pieces included. *)
Fixpoint split_delim (s : string) : list string :=
  match s with
  | EmptyString => [EmptyString]
  | String c s' =>
      if is_delim c then EmptyString :: split_delim s'
      else match split_delim s' with
           | t :: ts => String c t :: ts
           | [] => [String c EmptyString]
           end
  end.

(** The successive results of [strtok(s, " \t")], [strtok(nullptr, " \t")],
    ... until it returns null. *)
Definition tokens (s : string) : list string :=
  filter (fun t => negb (t =? EmptyString)%string) (split_delim s).

Fixpoint skip_space (s : string) : string :=
  match s with
  | String c s' => if isspace c then skip_space s' else s
  | EmptyString => EmptyString
  end.

Fixpoint digits_value (acc : Z) (s : string) : Z :=
  match s with
  | String c s' =>
      match digit_of c with
      | Some d => digits_value (10 * acc + d) s'
      | None => acc
      end
  | EmptyString => acc
  end.

(** Optional white space, optional sign, then the longest run of decimal
    digits; 0 when there is none. *)
Definition decimal_value (s : string) : Z :=
  match skip_space s with
  | String "-" s' => - digits_value 0 s'
  | String "+" s' => digits_value 0 s'
  | s' => digits_value 0 s'
  end.

Definition atoi (s : string) : Z := int_ (decimal_value s).
Definition atol (s : string) : Z := long_ (decimal_value s).

(** A token that holds no number: after optional white space and an
    optional sign its next character is not a decimal digit, or there is
    none. *)
Definition unparseable (t : string) : bool :=
  match (match skip_space t with
         | String "-" r => r
         | String "+" r => r
         | r => r
         end) with
  | String d _ => match digit_of d with Some _ => false | None => true end
  | EmptyString => true
  end.

(** Arduino's [constrain(x, lo, hi)] macro. *)
Definition constrain (x lo hi : Z) : Z :=
  if x <? lo then lo else if x >? hi then hi else x.

(** ** The line interpreter *)

Definition nl : string := String "010" EmptyString.

Definition help_text : string :=
  ("help | info | enable 0|1 | dir 0|1 | run <sps> | move <steps> <sps> | stop"
   ++ nl ++
   "current <mA> | microsteps <n> | stealth 0|1 | sgthrs <0..255>"
   ++ nl)%string.

Definition printHelp : M unit := emit (SerialPrintln help_text).

(** [dumpInfo] only reads driver registers and formats them; it is kept as
    one opaque output. *)
Definition dumpInfo : M unit := emit DumpInfo.

(** Argument of a 0|1 command: [a && atoi(a) != 0]. *)
Definition flag_arg (a : option string) : bool :=
  match a with
  | Some t => negb (atoi t =? 0)
  | None => false
  end.

(** [int sps = x ? atoi(x) : run.lastSps]. *)
Definition sps_arg (x : option string) : M Z :=
  match x with
  | Some t => ret (atoi t)
  | None => gets lastSps
  end.

Definition cmd_enable (a : option string) : M unit :=
  setEnable (flag_arg a) ;;
  emit (SerialPrint "enable=") ;;
  en <- gets enabled ;;
  emit (SerialPrintlnNum (Z.b2z en)).

Definition cmd_dir (a : option string) : M unit :=
  setDir (flag_arg a) ;;
  emit (SerialPrint "dir=") ;;
  d <- gets dir ;;
  emit (SerialPrintlnNum (Z.b2z d)).

Definition cmd_stop : M unit :=
  modify (with_continuous false) ;;
  modify (with_remaining 0) ;;
  emit (SerialPrintln "stopped").

(** The [run] branch once [sps] has been read. *)
Definition do_run (sps : Z) : M unit :=
  let d := sps <? 0 in
  let sps := if sps <? 0 then int_ (- sps) else sps in
  setDir d ;;
  setSpeedSps sps ;;
  modify (with_continuous true) ;;
  modify (with_remaining 0) ;;
  setEnable true ;;
  emit (SerialPrint "run sps=") ;; emit (SerialPrintNum sps) ;;
  emit (SerialPrint " dir=") ;; emit (SerialPrintlnNum (Z.b2z d)).

Definition cmd_run (a : option string) : M unit :=
  sps <- sps_arg a ;;
  do_run sps.

(** The [move] branch once [steps] and [sps] have been read. *)
Definition do_move (steps sps : Z) : M unit :=
  let d := steps <? 0 in
  let steps := if steps <? 0 then long_ (- steps) else steps in
  let sps := if sps <? 0 then int_ (- sps) else sps in
  setDir d ;;
  setSpeedSps sps ;;
  modify (with_continuous false) ;;
  modify (with_remaining steps) ;;
  setEnable true ;;
  emit (SerialPrint "move steps=") ;; emit (SerialPrintNum steps) ;;
  emit (SerialPrint " sps=") ;; emit (SerialPrintNum sps) ;;
  emit (SerialPrint " dir=") ;; emit (SerialPrintlnNum (Z.b2z d)).

Definition cmd_move (a b : option string) : M unit :=
  match a with
  | None => emit (SerialPrintln "move needs <steps>")
  | Some ta =>
      let steps := atol ta in
      sps <- sps_arg b ;;
      do_move steps sps
  end.

Definition cmd_current (a : option string) : M unit :=
  match a with
  | None => emit (SerialPrintln "current needs <mA>")
  | Some t =>
      let mA := u16 (constrain (atoi t) 50 2000) in
      emit (Driver (rms_current mA)) ;;
      emit (SerialPrint "rms_current(mA)=") ;; emit (SerialPrintlnNum mA)
  end.

Definition cmd_microsteps (a : option string) : M unit :=
  match a with
  | None => emit (SerialPrintln "microsteps needs <n>")
  | Some t =>
      let ms := u16 (atoi t) in
      emit (Driver (microsteps ms)) ;;
      emit (SerialPrint "microsteps=") ;; emit (SerialPrintlnNum ms)
  end.

Definition cmd_stealth (a : option string) : M unit :=
  match a with
  | None => emit (SerialPrintln "stealth needs 0|1")
  | Some t =>
      let stealth := negb (atoi t =? 0) in
      emit (Driver (en_spreadCycle (negb stealth))) ;;
      emit (Driver (pwm_autoscale true)) ;;
      emit (SerialPrint "stealth=") ;; emit (SerialPrintlnNum (Z.b2z stealth))
  end.

Definition cmd_sgthrs (a : option string) : M unit :=
  match a with
  | None => emit (SerialPrintln "sgthrs needs 0..255")
  | Some t =>
      let v := u8 (constrain (atoi t) 0 255) in
      emit (Driver (SGTHRS v)) ;;
      emit (SerialPrint "SGTHRS=") ;; emit (SerialPrintlnNum v)
  end.

Definition handleLine (s : string) : M unit :=
  match tokens s with
  | [] => ret tt
  | cmd :: args =>
      let a := nth_error args 0%nat in
      let b := nth_error args 1%nat in
      if (cmd =? "help")%string then printHelp
      else if (cmd =? "info")%string || (cmd =? "dump")%string then dumpInfo
      else if (cmd =? "enable")%string then cmd_enable a
      else if (cmd =? "dir")%string then cmd_dir a
      else if (cmd =? "stop")%string then cmd_stop
      else if (cmd =? "run")%string then cmd_run a
      else if (cmd =? "move")%string then cmd_move a b
      else if (cmd =? "current")%string then cmd_current a
      else if (cmd =? "microsteps")%string then cmd_microsteps a
      else if (cmd =? "stealth")%string then cmd_stealth a
      else if (cmd =? "sgthrs")%string then cmd_sgthrs a
      else emit (SerialPrint "unknown: ") ;; emit (SerialPrintln cmd)
  end.

(** ** The host loop *)

(** Everything [loop] keeps between iterations: the global [run], the
    characters of [lineBuf] below [lineLen], and the function-static
    [lastRemaining]. *)
Record Sketch : Type := mkSketch {
  run : Runner;
  lineBuf : string;
  lastRemaining : Z
}.

(** State when [loop] is first entered: [setup] calls [setDir(false)] and
    [setEnable(false)], which leave [run] at its initialisers. *)
Definition sketch_init : Sketch :=
  {| run := run_init; lineBuf := EmptyString; lastRemaining := -1 |}.

Definition LINEBUF_SIZE : nat := 96.

(** [serviceSerial] over the characters [Serial] holds for this call. *)
Fixpoint serviceSerial (input : list ascii) (buf : string) (st : Runner)
  : string * Runner * list Event :=
  match input with
  | [] => (buf, st, [])
  | c :: rest =>
      if (c =? "013")%char then serviceSerial rest buf st
      else if (c =? "010")%char then
        let '(_, st1, e1) := handleLine (c_str buf) st in
        let '(buf2, st2, e2) := serviceSerial rest EmptyString st1 in
        (buf2, st2, e1 ++ e2)
      else if (String.length buf <? LINEBUF_SIZE - 1)%nat then
        serviceSerial rest (buf ++ String c EmptyString)%string st
      else serviceSerial rest buf st
  end.

(** One iteration of [loop]: [input] is what the serial port delivers and
    [now] what [micros()] returns in it. *)
Definition loop (input : list ascii) (now : Z) (sk : Sketch)
  : Sketch * list Event :=
  let '(buf1, st1, e1) := serviceSerial input (lineBuf sk) (run sk) in
  let '(_, st2, e2) := serviceStepper now st1 in
  let e3 :=
    if negb (continuous st2) && negb (lastRemaining sk =? 0)
       && (remaining st2 =? 0)
    then [SerialPrintln "move done"] else [] in
  ({| run := st2; lineBuf := buf1; lastRemaining := remaining st2 |},
   e1 ++ e2 ++ e3).

Fixpoint loops (iters : list (list ascii * Z)) (sk : Sketch)
  : Sketch * list Event :=
  match iters with
  | [] => (sk, [])
  | (input, now) :: rest =>
      let '(sk1, e1) := loop input now sk in
      let '(sk2, e2) := loops rest sk1 in
      (sk2, e1 ++ e2)
  end.

(** ** Runs of ticks and command lines *)

Inductive Input : Type :=
| Tick (now : Z)
| Line (s : string).

Definition step_input (i : Input) : M unit :=
  match i with
  | Tick now => serviceStepper now
  | Line s => handleLine s
  end.

Fixpoint exec (inputs : list Input) : M unit :=
  match inputs with
  | [] => ret tt
  | i :: rest => step_input i ;; exec rest
  end.

Definition ticks (nows : list Z) : M unit := exec (map Tick nows).

(** Number of rising edges written to the step output. *)
Definition is_rising (e : Event) : bool :=
  match e with
  | DigitalWrite STEP_PIN true => true
  | _ => false
  end.

Definition rising_edges (evs : list Event) : nat :=
  List.length (filter is_rising evs).

(** The levels written to the step output, in order. *)
Fixpoint step_levels (evs : list Event) : list bool :=
  match evs with
  | [] => []
  | DigitalWrite STEP_PIN level :: rest => level :: step_levels rest
  | _ :: rest => step_levels rest
  end.

(** Starting with a pulse in flight or not ([high]), every write of HIGH
    finds the output low and every write of LOW finds it high. *)
Fixpoint pulses_alternate (high : bool) (levels : list bool) : bool :=
  match levels with
  | [] => true
  | l :: rest => negb (Bool.eqb l high) && pulses_alternate l rest
  end.

(** ** Notions used by the properties *)

(** The state a tick leaves when it fires a rising edge at [now]. *)
Definition fired (now : Z) (st : Runner) : Runner :=
  mkRunner (enabled st) (continuous st) (dir st)
           (if negb (continuous st) && (remaining st >? 0)
            then remaining st - 1 else remaining st)
           (stepIntervalUs st) (pulseWidthUs st)
           (u32 (now + stepIntervalUs st)) true
           (u32 (now + pulseWidthUs st)) (lastSps st).

(** The [shouldStep] flag of [serviceStepper]. *)
Definition shouldStep (st : Runner) : bool :=
  enabled st && (continuous st || (remaining st >? 0)).

(** The tick at [now] finds no deadline to act on. *)
Definition quiet (now : Z) (st : Runner) : bool :=
  if stepHigh st then negb (deadline_reached now (stepHighUntilUs st))
  else negb (shouldStep st && deadline_reached now (nextStepUs st)).

(** The values of [micros()] seen by the [k] ticks from tick [i] on, when
    tick [j] happens at true time [t j]. *)
Definition nows (t : nat -> Z) (i k : nat) : list Z :=
  map (fun j => u32 (t j)) (seq i k).

(** [enabled] is false after every input of the run. *)
Fixpoint stays_disabled (inputs : list Input) (st : Runner) : bool :=
  match inputs with
  | [] => true
  | i :: rest =>
      let st1 := state_of (step_input i st) in
      negb (enabled st1) && stays_disabled rest st1
  end.

(** The line's command word is [run] or [move]. *)
Definition starts_motion (s : string) : bool :=
  match tokens s with
  | cmd :: _ => (cmd =? "run")%string || (cmd =? "move")%string
  | [] => false
  end.

(** No line of the run is a [run] or [move] command. *)
Definition no_motion_command (inputs : list Input) : bool :=
  forallb (fun i => match i with
                    | Tick _ => true
                    | Line s => negb (starts_motion s)
                    end) inputs.

(** The report printed by [loop]. *)
Definition is_move_done (e : Event) : bool :=
  match e with
  | SerialPrintln s => (s =? "move done")%string
  | _ => false
  end.

Definition move_done_reports (evs : list Event) : nat :=
  List.length (filter is_move_done evs).

(** Distance of true time [t i] past deadline [D], on the 32-bit counter. *)
Definition offset (t : nat -> Z) (D : Z) (i : nat) : Z :=
  (t i - D) mod 2 ^ 32.

(** ** Printing helpers *)

(** Arduino's [Print::printNumber] for base 16: the digits of [n], most
    significant first, at least one; it is core library code, written out
    here after its loop [do { c = n % base; n /= base; ... } while (n)].
    [fuel] bounds the number of digits (the core's buffer holds 32). *)
Definition hex_char (d : Z) : ascii :=
  ascii_of_N (Z.to_N (if d <? 10 then d + 48 else d + 55)).

Fixpoint printNumber16 (fuel : nat) (n : Z) (acc : string) : string :=
  match fuel with
  | O => acc
  | S fuel' =>
      let acc' := String (hex_char (n mod 16)) acc in
      if n / 16 =? 0 then acc' else printNumber16 fuel' (n / 16) acc'
  end.

Definition print_hex (n : Z) : string := printNumber16 32 n EmptyString.

(** One [if (v < bound) Serial.print('0')] of [printHex32]. *)
Definition pad_below (bound v : Z) : M unit :=
  if v <? bound then emit (SerialPrint "0") else ret tt.

Definition printHex32 (name : string) (v : Z) : M unit :=
  emit (SerialPrint name) ;;
  emit (SerialPrint " = 0x") ;;
  pad_below 268435456 v ;;
  pad_below 16777216 v ;;
  pad_below 1048576 v ;;
  pad_below 65536 v ;;
  pad_below 4096 v ;;
  pad_below 256 v ;;
  pad_below 16 v ;;
  emit (SerialPrintln (print_hex v)).

(** The text a list of serial events puts on the line, numbers left out. *)
Fixpoint serial_text (evs : list Event) : string :=
  match evs with
  | [] => EmptyString
  | SerialPrint s :: rest => (s ++ serial_text rest)%string
  | SerialPrintln s :: rest => (s ++ serial_text rest)%string
  | _ :: rest => serial_text rest
  end.

(** Value of a string of hexadecimal digits; [None] on any other
    character. *)
Definition hex_digit_value (c : ascii) : option Z :=
  let n := Z.of_N (N_of_ascii c) in
  if (48 <=? n) && (n <=? 57) then Some (n - 48)
  else if (65 <=? n) && (n <=? 70) then Some (n - 55)
  else None.

Fixpoint hex_value (acc : Z) (s : string) : option Z :=
  match s with
  | EmptyString => Some acc
  | String c s' =>
      match hex_digit_value c with
      | Some d => hex_value (16 * acc + d) s'
      | None => None
      end
  end.

(** [16 ^ k], by recursion on the number of digits. *)
Fixpoint pow16 (k : nat) : Z :=
  match k with
  | O => 1
  | S k' => 16 * pow16 k'
  end.

(** ** Pins as seen from outside *)

Definition Pin_eqb (p q : Pin) : bool :=
  match p, q with
  | STEP_PIN, STEP_PIN | DIR_PIN, DIR_PIN | EN_PIN, EN_PIN => true
  | _, _ => false
  end.

(** Level of pin [p] after the writes of [evs], when it was [level]
    before. *)
Fixpoint pin_level (p : Pin) (level : bool) (evs : list Event) : bool :=
  match evs with
  | [] => level
  | DigitalWrite q l :: rest =>
      if Pin_eqb q p then pin_level p l rest else pin_level p level rest
  | _ :: rest => pin_level p level rest
  end.

(** The level [setEnable] gives the enable pin for [enabled = on]. *)
Definition en_level (on : bool) : bool :=
  if (if EN_ACTIVE_LOW then negb on else on) then HIGH else LOW.

(** The speed fields agree with each other and with the clamp. *)
Definition speed_consistent (st : Runner) : Prop :=
  1 <= lastSps st <= 40000
  /\ stepIntervalUs st = 1000000 / lastSps st
  /\ pulseWidthUs st = 3.

(** An event that is a pin write. *)
Definition is_pin_write (e : Event) : bool :=
  match e with
  | DigitalWrite _ _ => true
  | _ => false
  end.

(** An event that is a call on the driver object. *)
Definition is_driver_call (e : Event) : bool :=
  match e with
  | Driver _ => true
  | _ => false
  end.

(** The argument of a driver call is within the range the interpreter
    clamps it to. *)
Definition driver_arg_in_range (e : Event) : Prop :=
  match e with
  | Driver (rms_current mA) => 50 <= mA <= 2000
  | Driver (SGTHRS v) => 0 <= v <= 255
  | Driver (microsteps ms) => 0 <= ms <= 65535
  | _ => True
  end.

(** The words [handleLine] knows. *)
Definition known_commands : list string :=
  ["help"; "info"; "dump"; "enable"; "dir"; "stop"; "run"; "move";
   "current"; "microsteps"; "stealth"; "sgthrs"].

Definition is_known (cmd : string) : bool :=
  existsb (fun k => (cmd =? k)%string) known_commands.

(** A run given with the true times of its ticks: tick [TickAt T] reads
    [u32 T] from [micros()]. *)
Inductive Timed : Type :=
| TickAt (T : Z)
| Command (s : string).

Definition untimed (x : Timed) : Input :=
  match x with
  | TickAt T => Tick (u32 T)
  | Command s => Line s
  end.

(** A tick of the run happens at a true time in [[lo, hi)]. *)
Definition tick_in (lo hi : Z) (x : Timed) : Prop :=
  match x with
  | TickAt T => lo <= T < hi
  | Command _ => True
  end.

(** The iteration has nothing to read from the serial port. *)
Definition no_serial (iters : list (list ascii * Z)) : Prop :=
  Forall (fun it => fst it = []) iters.

Definition is_CR (c : ascii) : bool := (c =? "013")%char.
Definition is_LF (c : ascii) : bool := (c =? "010")%char.

(** The first [n] characters of [s]. *)
Fixpoint str_take (n : nat) (s : string) : string :=
  match n, s with
  | S n', String c s' => String c (str_take n' s')
  | _, _ => EmptyString
  end.

(** * Properties *)

(** ** Unfolding the monadic definitions *)

Ltac run_M :=
  cbv [serviceStepper setEnable setDir setSpeedSps cmd_enable cmd_dir cmd_stop
       cmd_run cmd_move do_run do_move cmd_current cmd_microsteps cmd_stealth
       cmd_sgthrs printHelp dumpInfo sps_arg digitalWrite bind ret gets modify
       emit state_of events_of fst snd] in *.

Ltac split_ifs :=
  repeat match goal with
         | |- context [if ?c then _ else _] => destruct c eqn:?
         end.

(** ** The interpreter on sample lines *)

Example ex_tokens :
  tokens ("  move   -100" ++ String "009" " 500 ") = ["move"; "-100"; "500"].
Proof. reflexivity. Qed.

Example ex_atoi : atoi "-100" = -100 /\ atoi "abc" = 0 /\ atoi "12x" = 12.
Proof. repeat split. Qed.

Example ex_move :
  let st := state_of (handleLine "move -100 500" run_init) in
  (dir st, remaining st, stepIntervalUs st, enabled st) = (true, 100, 2000, true).
Proof. vm_compute. reflexivity. Qed.

Lemma serviceStepper_eq (now : Z) (st : Runner) :
  serviceStepper now st =
  if stepHigh st then
    if deadline_reached now (stepHighUntilUs st)
    then (tt, with_stepHigh false st, [DigitalWrite STEP_PIN LOW])
    else (tt, st, [])
  else if shouldStep st then
    if deadline_reached now (nextStepUs st)
    then (tt, fired now st, [DigitalWrite STEP_PIN HIGH])
    else (tt, st, [])
  else (tt, st, []).
Proof.
  destruct st as [en cont d rem iv pw nx hi un ls].
  unfold shouldStep, fired. run_M. cbn.
  destruct hi, en, cont, (rem >? 0) eqn:Hr,
    (deadline_reached now un) eqn:Hu, (deadline_reached now nx) eqn:Hn;
    repeat (progress (cbn; rewrite ?Hr, ?Hu, ?Hn)); reflexivity.
Qed.

Lemma bind_state {A B : Type} (m : M A) (k : A -> M B) (st : Runner) :
  state_of (bind m k st) = state_of (k (fst (fst (m st))) (state_of (m st))).
Proof.
  unfold bind, state_of.
  destruct (m st) as [[a st1] e1]; cbn.
  destruct (k a st1) as [[b st2] e2]; reflexivity.
Qed.

Lemma bind_events {A B : Type} (m : M A) (k : A -> M B) (st : Runner) :
  events_of (bind m k st) =
  events_of (m st) ++ events_of (k (fst (fst (m st))) (state_of (m st))).
Proof.
  unfold bind, state_of, events_of.
  destruct (m st) as [[a st1] e1]; cbn.
  destruct (k a st1) as [[b st2] e2]; reflexivity.
Qed.

Lemma bind_gets {A B : Type} (f : Runner -> A) (k : A -> M B) (st : Runner) :
  bind (gets f) k st = k (f st) st.
Proof.
  unfold bind, gets. destruct (k (f st) st) as [[b st2] e2]. reflexivity.
Qed.

Lemma exec_app (xs ys : list Input) (st : Runner) :
  state_of (exec (xs ++ ys) st) = state_of (exec ys (state_of (exec xs st)))
  /\ events_of (exec (xs ++ ys) st) =
     events_of (exec xs st) ++ events_of (exec ys (state_of (exec xs st))).
Proof.
  revert st; induction xs as [|x xs IH]; intros st.
  - split; reflexivity.
  - change (exec ((x :: xs) ++ ys)) with (step_input x ;; exec (xs ++ ys)).
    change (exec (x :: xs)) with (step_input x ;; exec xs).
    rewrite !bind_state, !bind_events.
    destruct (IH (state_of (step_input x st))) as [IHs IHe].
    rewrite IHs, IHe, app_assoc. split; reflexivity.
Qed.

Lemma step_levels_app (xs ys : list Event) :
  step_levels (xs ++ ys) = step_levels xs ++ step_levels ys.
Proof.
  induction xs as [|e xs IH]; [reflexivity|].
  destruct e as [p l| | | | | |]; cbn; try exact IH.
  destruct p; cbn; rewrite ?IH; reflexivity.
Qed.

Lemma rising_edges_app (xs ys : list Event) :
  rising_edges (xs ++ ys) = (rising_edges xs + rising_edges ys)%nat.
Proof.
  unfold rising_edges. rewrite filter_app, length_app. reflexivity.
Qed.

(** Rising edges are the HIGH entries of [step_levels]. *)
Lemma rising_edges_levels (evs : list Event) :
  rising_edges evs = List.length (filter (fun l : bool => l) (step_levels evs)).
Proof.
  unfold rising_edges.
  induction evs as [|e evs IH]; [reflexivity|].
  destruct e as [p l| | | | | |]; cbn; try exact IH.
  destruct p; cbn; try exact IH.
  destruct l; cbn; rewrite IH; reflexivity.
Qed.

(** ** What a command line can touch *)

(** No command writes the step output or the pulse bookkeeping. *)
Lemma handleLine_frame (s : string) (st : Runner) :
  step_levels (events_of (handleLine s st)) = []
  /\ stepHigh (state_of (handleLine s st)) = stepHigh st
  /\ stepHighUntilUs (state_of (handleLine s st)) = stepHighUntilUs st
  /\ nextStepUs (state_of (handleLine s st)) = nextStepUs st
  /\ pulseWidthUs (state_of (handleLine s st)) = pulseWidthUs st.
Proof.
  unfold handleLine.
  destruct (tokens s) as [|cmd args]; [repeat split|].
  cbv zeta.
  destruct (nth_error args 0) as [a|]; destruct (nth_error args 1) as [b|];
    split_ifs; run_M; split_ifs; cbn; repeat split.
Qed.

(** ** The step output follows [stepHigh] *)

(** One input either leaves the step output alone or toggles it together
    with [stepHigh]. *)
Lemma step_input_levels (i : Input) (st : Runner) :
  (step_levels (events_of (step_input i st)) = []
   /\ stepHigh (state_of (step_input i st)) = stepHigh st)
  \/ (step_levels (events_of (step_input i st)) = [negb (stepHigh st)]
      /\ stepHigh (state_of (step_input i st)) = negb (stepHigh st)).
Proof.
  destruct i as [now|s]; cbn [step_input].
  - rewrite serviceStepper_eq.
    destruct (stepHigh st) eqn:Hh.
    + destruct (deadline_reached now (stepHighUntilUs st));
        [right | left]; cbn; auto.
    + destruct (shouldStep st); [|left; cbn; auto].
      destruct (deadline_reached now (nextStepUs st));
        [right | left]; cbn; auto.
  - left. destruct (handleLine_frame s st) as (H1 & H2 & _). auto.
Qed.

Lemma exec_cons (i : Input) (rest : list Input) (st : Runner) :
  state_of (exec (i :: rest) st) = state_of (exec rest (state_of (step_input i st)))
  /\ events_of (exec (i :: rest) st) =
     events_of (step_input i st)
     ++ events_of (exec rest (state_of (step_input i st))).
Proof.
  change (exec (i :: rest)) with (step_input i ;; exec rest).
  rewrite bind_state, bind_events. split; reflexivity.
Qed.

Lemma last_default (l : list bool) (b d d' : bool) :
  last (b :: l) d = last (b :: l) d'.
Proof.
  revert b; induction l as [|a l IH]; intros b; [reflexivity|].
  change (last (b :: a :: l) d) with (last (a :: l) d).
  change (last (b :: a :: l) d') with (last (a :: l) d').
  apply IH.
Qed.

Lemma last_after_toggle (h : bool) (l : list bool) :
  last (negb h :: l) h = last l (negb h).
Proof.
  destruct l as [|b l]; [reflexivity|].
  change (last (negb h :: b :: l) h) with (last (b :: l) h).
  apply last_default.
Qed.

Lemma exec_alternate (inputs : list Input) (st : Runner) :
  pulses_alternate (stepHigh st) (step_levels (events_of (exec inputs st))) = true
  /\ last (step_levels (events_of (exec inputs st))) (stepHigh st)
     = stepHigh (state_of (exec inputs st)).
Proof.
  revert st; induction inputs as [|i rest IH]; intros st.
  - split; reflexivity.
  - destruct (exec_cons i rest st) as [Hs He]. rewrite Hs, He, step_levels_app.
    specialize (IH (state_of (step_input i st))).
    destruct IH as [IHa IHl].
    destruct (step_input_levels i st) as [[Hl Hh] | [Hl Hh]];
      rewrite Hl; rewrite Hh in IHa, IHl.
    + split; assumption.
    + cbn [app pulses_alternate]. split.
      * rewrite IHa. destruct (stepHigh st); reflexivity.
      * rewrite <- IHl. apply last_after_toggle.
Qed.

(** C1. No pulse overlap: over every sequence of ticks and command lines,
    from every state, the writes to the step output strictly alternate
    starting from [stepHigh] (a HIGH is written only while no pulse is in
    flight, so each falling edge precedes the next rising edge), the
    output level always equals [stepHigh], and a tick that finds a pulse in
    flight writes no rising edge and schedules nothing: the next-step
    deadline and the remaining count are as before. *)
Theorem no_pulse_overlap :
  forall (inputs : list Input) (st : Runner) (now : Z),
    pulses_alternate (stepHigh st)
                     (step_levels (events_of (exec inputs st))) = true
    /\ last (step_levels (events_of (exec inputs st))) (stepHigh st)
       = stepHigh (state_of (exec inputs st))
    /\ let busy := with_stepHigh true st in
       rising_edges (events_of (serviceStepper now busy)) = 0%nat
       /\ nextStepUs (state_of (serviceStepper now busy)) = nextStepUs st
       /\ remaining (state_of (serviceStepper now busy)) = remaining st
       /\ stepHighUntilUs (state_of (serviceStepper now busy))
          = stepHighUntilUs st.
Proof.
  intros inputs st now.
  destruct (exec_alternate inputs st) as [Ha Hl].
  repeat split; try assumption;
    rewrite serviceStepper_eq; cbn;
    destruct (deadline_reached now (stepHighUntilUs st)); reflexivity.
Qed.

(** ** Deadline comparison across the 32-bit wrap *)

Lemma deadline_reached_mod (now deadline : Z) :
  deadline_reached now deadline = ((now - deadline) mod 2 ^ 32 <? 2 ^ 31).
Proof.
  unfold deadline_reached, int32, u32, to_signed, to_unsigned.
  change (32 - 1) with 31.
  change (2 ^ 32) with 4294967296. change (2 ^ 31) with 2147483648.
  pose proof (Z.mod_pos_bound (now - deadline) 4294967296 eq_refl) as Hb.
  set (y := (now - deadline) mod 4294967296) in *.
  destruct (Z.ltb_spec y 2147483648) as [Hlt|Hge].
  - rewrite Z.mod_small by lia. apply Z.leb_le. lia.
  - apply Z.leb_gt.
    replace (y + 2147483648) with ((y - 2147483648) + 1 * 4294967296) by lia.
    rewrite Z.mod_add by lia. rewrite Z.mod_small by lia. lia.
Qed.

(** Comparing wrapped clock values decides the order of the true times
    when these are less than half the counter range apart. *)
Lemma deadline_reached_true_time (T D : Z) :
  - 2 ^ 31 <= T - D < 2 ^ 31 ->
  deadline_reached (u32 T) (u32 D) = (D <=? T).
Proof.
  intros H. rewrite deadline_reached_mod. unfold u32, to_unsigned.
  rewrite <- Zminus_mod.
  change (2 ^ 32) with 4294967296 in *. change (2 ^ 31) with 2147483648 in *.
  destruct (Z.leb_spec D T) as [Hle|Hgt].
  - rewrite Z.mod_small by lia. apply Z.ltb_lt. lia.
  - apply Z.ltb_ge.
    replace (T - D) with ((T - D + 4294967296) + (-1) * 4294967296) by lia.
    rewrite Z.mod_add by lia. rewrite Z.mod_small by lia. lia.
Qed.

(** C3. Wraparound-safe deadlines: for true times [T] (now) and [D]
    (deadline) less than half the counter range apart, the comparison on
    the wrapped 32-bit values says "reached" exactly when [D <= T]; the
    pulse-release test and the next-step test of the scheduler both follow
    it; and a deadline at the last value before the wrap is reached at
    [now = 0]. *)
Theorem wraparound_safe :
  forall (T D : Z) (st : Runner),
    - 2 ^ 31 <= T - D < 2 ^ 31 ->
    let now := u32 T in
    let busy := with_stepHighUntilUs (u32 D) (with_stepHigh true st) in
    let idle := with_nextStepUs (u32 D) (with_stepHigh false st) in
    deadline_reached now (u32 D) = (D <=? T)
    /\ stepHigh (state_of (serviceStepper now busy)) = negb (D <=? T)
    /\ stepHigh (state_of (serviceStepper now idle))
       = shouldStep st && (D <=? T)
    /\ deadline_reached 0 (2 ^ 32 - 1) = true.
Proof.
  intros T D st H now busy idle.
  pose proof (deadline_reached_true_time T D H) as Hr.
  repeat split.
  - exact Hr.
  - subst busy now. rewrite serviceStepper_eq. cbn. rewrite Hr.
    destruct (D <=? T); reflexivity.
  - subst idle now. rewrite serviceStepper_eq. cbn.
    change (shouldStep _) with (shouldStep st) at 1.
    rewrite Hr. destruct (shouldStep st), (D <=? T); reflexivity.
Qed.

Lemma wraparound_safe_witness :
  let st := with_enabled true (with_remaining 5 run_init) in
  deadline_reached (u32 4294967306) (u32 4294967290) = true
  /\ stepHigh (state_of (serviceStepper 10
        (with_stepHighUntilUs 4294967290 (with_stepHigh true st)))) = false
  /\ stepHigh (state_of (serviceStepper 10
        (with_nextStepUs 4294967290 (with_stepHigh false st)))) = true.
Proof.
  pose proof (wraparound_safe 4294967306 4294967290
                (with_enabled true (with_remaining 5 run_init))
                ltac:(lia)) as (H1 & H2 & H3 & _).
  intros st. split; [exact H1 | split; [exact H2 | exact H3]].
Defined.

(** ** Ticks that do nothing, and ticks in a stopped state *)

Lemma quiet_tick (now : Z) (st : Runner) :
  quiet now st = true -> serviceStepper now st = (tt, st, []).
Proof.
  unfold quiet. rewrite serviceStepper_eq.
  destruct (stepHigh st).
  - destruct (deadline_reached now (stepHighUntilUs st)); [discriminate | reflexivity].
  - destruct (shouldStep st); [|reflexivity].
    destruct (deadline_reached now (nextStepUs st)); [discriminate | reflexivity].
Qed.

Lemma ticks_cons (now : Z) (l : list Z) (st : Runner) :
  state_of (ticks (now :: l) st) = state_of (ticks l (state_of (serviceStepper now st)))
  /\ events_of (ticks (now :: l) st) =
     events_of (serviceStepper now st)
     ++ events_of (ticks l (state_of (serviceStepper now st))).
Proof. exact (exec_cons (Tick now) (map Tick l) st). Qed.

Lemma ticks_app (xs ys : list Z) (st : Runner) :
  state_of (ticks (xs ++ ys) st) = state_of (ticks ys (state_of (ticks xs st)))
  /\ events_of (ticks (xs ++ ys) st) =
     events_of (ticks xs st) ++ events_of (ticks ys (state_of (ticks xs st))).
Proof. unfold ticks. rewrite map_app. apply exec_app. Qed.

Lemma quiet_ticks (l : list Z) (st : Runner) :
  Forall (fun now => quiet now st = true) l ->
  state_of (ticks l st) = st /\ events_of (ticks l st) = [].
Proof.
  induction 1 as [|now l Hq _ IH]; [split; reflexivity|].
  destruct (ticks_cons now l st) as [Hs He].
  rewrite Hs, He, (quiet_tick now st Hq). exact IH.
Qed.

(** What one tick does to [remaining]. *)
Lemma tick_remaining (now : Z) (st : Runner) :
  (remaining (state_of (serviceStepper now st)) = remaining st - 1
   /\ rising_edges (events_of (serviceStepper now st)) = 1%nat
   /\ continuous st = false /\ 0 < remaining st)
  \/ (remaining (state_of (serviceStepper now st)) = remaining st
      /\ (rising_edges (events_of (serviceStepper now st)) = 0%nat
          \/ continuous st = true)).
Proof.
  rewrite serviceStepper_eq. unfold shouldStep, fired.
  destruct (stepHigh st).
  - right. destruct (deadline_reached now (stepHighUntilUs st)); cbn; auto.
  - destruct (enabled st); [|right; cbn; auto].
    destruct (continuous st) eqn:Hc; cbn.
    + right. destruct (deadline_reached now (nextStepUs st)); cbn; auto.
    + destruct (remaining st >? 0) eqn:Hr; [|right; cbn; auto].
      destruct (deadline_reached now (nextStepUs st)); [|right; cbn; auto].
      left. cbn. apply Z.gtb_lt in Hr. auto.
Qed.

(** A tick changes neither the mode nor the enable flag. *)
Lemma tick_mode (now : Z) (st : Runner) :
  continuous (state_of (serviceStepper now st)) = continuous st
  /\ enabled (state_of (serviceStepper now st)) = enabled st.
Proof.
  rewrite serviceStepper_eq.
  destruct (stepHigh st), (shouldStep st),
    (deadline_reached now (stepHighUntilUs st)),
    (deadline_reached now (nextStepUs st)); split; reflexivity.
Qed.

(** In finite mode the rising edges written and the steps left always add
    up to the steps there were, whatever the tick times. *)
Lemma finite_ticks_account (l : list Z) (st : Runner) :
  continuous st = false -> 0 <= remaining st ->
  Z.of_nat (rising_edges (events_of (ticks l st)))
  + remaining (state_of (ticks l st)) = remaining st
  /\ 0 <= remaining (state_of (ticks l st))
  /\ continuous (state_of (ticks l st)) = false.
Proof.
  revert st; induction l as [|now l IH]; intros st Hc Hr.
  - cbn. auto.
  - destruct (ticks_cons now l st) as [Hs He]. rewrite Hs, He, rising_edges_app.
    destruct (tick_mode now st) as [Hm _].
    specialize (IH (state_of (serviceStepper now st))).
    rewrite Hm in IH. specialize (IH Hc).
    destruct (tick_remaining now st) as [(Hd & He1 & _ & Hp) | (Hd & [He0 | Hx])].
    + rewrite Hd in IH. rewrite He1. destruct IH as (I1 & I2 & I3); [lia|].
      repeat split; try assumption. lia.
    + rewrite Hd in IH. rewrite He0. destruct (IH Hr) as (I1 & I2 & I3).
      repeat split; try assumption.
    + congruence.
Qed.

(** ** A free-running clock

    [t i] is the true time, in microseconds since some origin, at which
    tick [i] samples [micros()], so the tick sees [u32 (t i)].  Time moves
    forward between ticks and two successive ticks are at most half the
    counter range apart. *)

Section FreeRunning.

Variable t : nat -> Z.
Hypothesis gap : forall i : nat, 0 < t (S i) - t i <= 2 ^ 31.

Lemma reached_offset (D : Z) (i : nat) :
  deadline_reached (u32 (t i)) D = (offset t D i <? 2 ^ 31).
Proof.
  rewrite deadline_reached_mod. unfold offset, u32, to_unsigned.
  rewrite Zminus_mod_idemp_l. reflexivity.
Qed.

Lemma offset_next (D : Z) (i : nat) :
  offset t D (S i) = (offset t D i + (t (S i) - t i)) mod 2 ^ 32.
Proof.
  unfold offset. rewrite Zplus_mod_idemp_l. f_equal. lia.
Qed.

Lemma eventually_reached_aux (D : Z) (n : nat) :
  forall i : nat,
    2 ^ 32 - offset t D i <= Z.of_nat n ->
    exists j : nat,
      deadline_reached (u32 (t (i + j))) D = true
      /\ forall j' : nat, (j' < j)%nat ->
                          deadline_reached (u32 (t (i + j'))) D = false.
Proof.
  induction n as [|n IH]; intros i Hn.
  - pose proof (Z.mod_pos_bound (t i - D) (2 ^ 32) eq_refl) as Hb.
    fold (offset t D i) in Hb. lia.
  - destruct (deadline_reached (u32 (t i)) D) eqn:Hr.
    + exists 0%nat. rewrite Nat.add_0_r. split; [exact Hr | lia].
    + pose proof Hr as Hlow. rewrite reached_offset in Hlow.
      apply Z.ltb_ge in Hlow.
      pose proof (Z.mod_pos_bound (t i - D) (2 ^ 32) eq_refl) as Hb.
      fold (offset t D i) in Hb.
      pose proof (gap i) as Hg. pose proof (offset_next D i) as Hnx.
      change (2 ^ 32) with 4294967296 in *.
      change (2 ^ 31) with 2147483648 in *.
      destruct (Z_lt_ge_dec (offset t D i + (t (S i) - t i)) 4294967296)
        as [Hlt|Hge].
      * rewrite Z.mod_small in Hnx by lia.
        destruct (IH (S i)) as (j & Hj & Hbefore); [lia|].
        exists (S j). rewrite Nat.add_succ_r. split; [exact Hj|].
        intros [|j'] Hlt'.
        -- rewrite Nat.add_0_r. exact Hr.
        -- rewrite Nat.add_succ_r. apply Hbefore. lia.
      * exists 1%nat. split.
        -- rewrite Nat.add_1_r, reached_offset, Hnx.
           replace (offset t D i + (t (S i) - t i))
             with ((offset t D i + (t (S i) - t i) - 4294967296)
                   + 1 * 4294967296) by lia.
           rewrite Z.mod_add by lia. rewrite Z.mod_small by lia.
           apply Z.ltb_lt. lia.
        -- intros j' Hj'. replace j' with 0%nat by lia.
           rewrite Nat.add_0_r. exact Hr.
Qed.

(** Every deadline is reached by some tick; [j] is the first one. *)
Lemma eventually_reached (D : Z) (i : nat) :
  exists j : nat,
    deadline_reached (u32 (t (i + j))) D = true
    /\ forall j' : nat, (j' < j)%nat ->
                        deadline_reached (u32 (t (i + j'))) D = false.
Proof.
  apply (eventually_reached_aux D (Z.to_nat (2 ^ 32))).
  pose proof (Z.mod_pos_bound (t i - D) (2 ^ 32) eq_refl) as Hb.
  fold (offset t D i) in Hb. lia.
Qed.

End FreeRunning.

Lemma nows_split (t : nat -> Z) (i k1 k2 : nat) :
  nows t i (k1 + k2) = nows t i k1 ++ nows t (i + k1) k2.
Proof. unfold nows. rewrite seq_app, map_app. reflexivity. Qed.

Lemma ticks_one (now : Z) (st : Runner) :
  state_of (ticks [now] st) = state_of (serviceStepper now st)
  /\ events_of (ticks [now] st) = events_of (serviceStepper now st).
Proof.
  destruct (ticks_cons now [] st) as [Hs He]. rewrite Hs, He.
  cbn. rewrite app_nil_r. split; reflexivity.
Qed.

Section Liveness.

Variable t : nat -> Z.
Hypothesis gap : forall i : nat, 0 < t (S i) - t i <= 2 ^ 31.

(** A state that waits for deadline [D] and nothing else is first changed
    by the first tick that reaches [D]. *)
Lemma first_action (D : Z) (st : Runner) (i : nat) :
  (forall now, quiet now st = negb (deadline_reached now D)) ->
  exists j : nat,
    deadline_reached (u32 (t (i + j))) D = true
    /\ state_of (ticks (nows t i (S j)) st)
       = state_of (serviceStepper (u32 (t (i + j))) st)
    /\ events_of (ticks (nows t i (S j)) st)
       = events_of (serviceStepper (u32 (t (i + j))) st).
Proof.
  intros Hq.
  destruct (eventually_reached t gap D i) as (j & Hj & Hbefore).
  exists j. split; [exact Hj|].
  replace (S j) with (j + 1)%nat by lia. rewrite nows_split.
  assert (Hquiet : Forall (fun now => quiet now st = true) (nows t i j)).
  { apply Forall_forall. intros now Hin. unfold nows in Hin.
    apply in_map_iff in Hin. destruct Hin as (m & <- & Hm).
    apply in_seq in Hm. rewrite Hq.
    replace m with (i + (m - i))%nat by lia.
    rewrite Hbefore by lia. reflexivity. }
  destruct (quiet_ticks _ _ Hquiet) as [Hs He].
  destruct (ticks_app (nows t i j) (nows t (i + j) 1) st) as [As Ae].
  rewrite As, Ae, Hs, He. cbn [nows seq map app].
  apply ticks_one.
Qed.

Lemma pulse_falls (st : Runner) (i : nat) :
  stepHigh st = true ->
  exists j : nat,
    state_of (ticks (nows t i (S j)) st) = with_stepHigh false st
    /\ events_of (ticks (nows t i (S j)) st) = [DigitalWrite STEP_PIN LOW].
Proof.
  intros Hh.
  destruct (first_action (stepHighUntilUs st) st i) as (j & Hj & Hs & He).
  { intros now. unfold quiet. rewrite Hh. reflexivity. }
  exists j. rewrite Hs, He, serviceStepper_eq, Hh, Hj. split; reflexivity.
Qed.

Lemma step_fires (st : Runner) (i : nat) :
  stepHigh st = false -> shouldStep st = true ->
  exists j : nat,
    state_of (ticks (nows t i (S j)) st) = fired (u32 (t (i + j))) st
    /\ events_of (ticks (nows t i (S j)) st) = [DigitalWrite STEP_PIN HIGH].
Proof.
  intros Hh Hgo.
  destruct (first_action (nextStepUs st) st i) as (j & Hj & Hs & He).
  { intros now. unfold quiet. rewrite Hh, Hgo. reflexivity. }
  exists j. rewrite Hs, He, serviceStepper_eq, Hh, Hgo, Hj. split; reflexivity.
Qed.

(** With the motor enabled and [n] steps left of a finite move, the
    free-running ticks write exactly [n] rising edges and then none. *)
Lemma finite_run_completes (n : nat) :
  forall (st : Runner) (i : nat),
    enabled st = true -> continuous st = false ->
    remaining st = Z.of_nat n ->
    exists K : nat, forall k : nat, (K <= k)%nat ->
      rising_edges (events_of (ticks (nows t i k) st)) = n
      /\ remaining (state_of (ticks (nows t i k) st)) = 0.
Proof.
  induction n as [|n IH]; intros st i Hen Hc Hr.
  - exists 0%nat. intros k _.
    destruct (finite_ticks_account (nows t i k) st Hc) as (Hsum & Hpos & _);
      [lia|]. rewrite Hr in Hsum. cbn in Hsum. split; lia.
  - assert (Hidle : forall (s : Runner) (i0 : nat),
               stepHigh s = false -> enabled s = true ->
               continuous s = false -> remaining s = Z.of_nat (S n) ->
               exists K : nat, forall k : nat, (K <= k)%nat ->
                 rising_edges (events_of (ticks (nows t i0 k) s)) = S n
                 /\ remaining (state_of (ticks (nows t i0 k) s)) = 0).
    { intros s i0 Hh He Hcs Hrs.
      assert (Hpos : (remaining s >? 0) = true) by (apply Z.gtb_lt; lia).
      destruct (step_fires s i0 Hh) as (j & Hs1 & He1).
      { unfold shouldStep. rewrite He, Hcs, Hpos. reflexivity. }
      destruct (IH (fired (u32 (t (i0 + j))) s) (i0 + S j)%nat)
        as (K2 & HK2).
      { exact He. } { exact Hcs. }
      { cbn. rewrite Hcs, Hpos. cbn. lia. }
      exists (S j + K2)%nat. intros k Hk.
      replace k with (S j + (k - S j))%nat by lia.
      rewrite nows_split.
      destruct (ticks_app (nows t i0 (S j)) (nows t (i0 + S j) (k - S j)) s)
        as [As Ae].
      rewrite As, Ae, rising_edges_app, Hs1, He1.
      destruct (HK2 (k - S j)%nat) as [R1 R2]; [lia|].
      rewrite R1, R2. split; reflexivity. }
    destruct (stepHigh st) eqn:Hh.
    + destruct (pulse_falls st i Hh) as (j & Hs1 & He1).
      destruct (Hidle (with_stepHigh false st) (i + S j)%nat)
        as (K2 & HK2); try assumption; try reflexivity.
      exists (S j + K2)%nat. intros k Hk.
      replace k with (S j + (k - S j))%nat by lia.
      rewrite nows_split.
      destruct (ticks_app (nows t i (S j)) (nows t (i + S j) (k - S j)) st)
        as [As Ae].
      rewrite As, Ae, rising_edges_app, Hs1, He1.
      destruct (HK2 (k - S j)%nat) as [R1 R2]; [lia|].
      rewrite R1, R2. split; reflexivity.
    + apply Hidle; assumption.
Qed.

End Liveness.

(** ** Finite moves *)

Lemma setSpeedSps_frame (sps : Z) (st : Runner) :
  let st' := state_of (setSpeedSps sps st) in
  enabled st' = enabled st /\ continuous st' = continuous st
  /\ dir st' = dir st /\ remaining st' = remaining st
  /\ pulseWidthUs st' = pulseWidthUs st /\ nextStepUs st' = nextStepUs st
  /\ stepHigh st' = stepHigh st /\ stepHighUntilUs st' = stepHighUntilUs st
  /\ events_of (setSpeedSps sps st) = [].
Proof. run_M. split_ifs; cbn; repeat split. Qed.

Lemma do_move_state (steps sps : Z) (st : Runner) :
  0 <= steps ->
  let st' := state_of (do_move steps sps st) in
  remaining st' = steps /\ enabled st' = true /\ continuous st' = false
  /\ dir st' = false /\ stepHigh st' = stepHigh st
  /\ stepHighUntilUs st' = stepHighUntilUs st
  /\ nextStepUs st' = nextStepUs st.
Proof.
  intros Hs. assert (Hn : (steps <? 0) = false) by (apply Z.ltb_ge; lia).
  run_M. rewrite Hn. split_ifs; cbn; repeat split.
Qed.

(** C2. Finite-move exactness: after [move N sps] with [N >= 0], whatever
    the tick times, the rising edges written so far plus [remaining] equal
    [N] and [remaining] is never negative; under a free-running clock
    (time advances between ticks, by at most half the counter range)
    there is a tick count from which on exactly [N] rising edges have
    been written and [remaining] is 0; and a single tick either lowers
    [remaining] by exactly 1 while writing a rising edge in finite mode, or
    leaves it as it was (then it wrote no rising edge, or the mode is
    continuous). *)
Theorem finite_move_exact :
  forall (t : nat -> Z) (st : Runner) (N sps : Z),
    0 <= N ->
    (forall i : nat, 0 < t (S i) - t i <= 2 ^ 31) ->
    let moved := state_of (do_move N sps st) in
    remaining moved = N /\ enabled moved = true /\ continuous moved = false
    /\ (forall l : list Z,
          Z.of_nat (rising_edges (events_of (ticks l moved)))
          + remaining (state_of (ticks l moved)) = N
          /\ 0 <= remaining (state_of (ticks l moved))
          /\ enabled (state_of (ticks l moved)) = true)
    /\ (exists K : nat, forall k : nat, (K <= k)%nat ->
          rising_edges (events_of (ticks (nows t 0 k) moved)) = Z.to_nat N
          /\ remaining (state_of (ticks (nows t 0 k) moved)) = 0)
    /\ (forall (now : Z) (s : Runner),
          (remaining (state_of (serviceStepper now s)) = remaining s - 1
           /\ rising_edges (events_of (serviceStepper now s)) = 1%nat
           /\ continuous s = false /\ 0 < remaining s)
          \/ (remaining (state_of (serviceStepper now s)) = remaining s
              /\ (rising_edges (events_of (serviceStepper now s)) = 0%nat
                  \/ continuous s = true))).
Proof.
  intros t st N sps HN gap moved.
  destruct (do_move_state N sps st HN) as (Hr & He & Hc & _).
  fold moved in Hr, He, Hc.
  split; [exact Hr|]. split; [exact He|]. split; [exact Hc|].
  split; [|split].
  - intros l.
    destruct (finite_ticks_account l moved Hc) as (Hsum & Hpos & _); [lia|].
    rewrite Hr in Hsum. repeat split; try assumption.
    clear Hsum Hpos. revert He. generalize moved. clear.
    induction l as [|now l IH]; intros s He; [exact He|].
    destruct (ticks_cons now l s) as [Hs _]. rewrite Hs. apply IH.
    destruct (tick_mode now s) as [_ Hen]. congruence.
  - apply (finite_run_completes t gap (Z.to_nat N) moved 0%nat He Hc). lia.
  - exact tick_remaining.
Qed.

Lemma finite_move_exact_witness :
  exists K : nat, forall k : nat, (K <= k)%nat ->
    rising_edges (events_of
      (ticks (nows (fun i => 1000 * Z.of_nat i) 0 k)
             (state_of (do_move 3 500 run_init)))) = 3%nat
    /\ remaining (state_of
      (ticks (nows (fun i => 1000 * Z.of_nat i) 0 k)
             (state_of (do_move 3 500 run_init)))) = 0.
Proof.
  assert (Hgap : forall i : nat,
             0 < 1000 * Z.of_nat (S i) - 1000 * Z.of_nat i <= 2 ^ 31).
  { intros i. change (2 ^ 31) with 2147483648. lia. }
  destruct (finite_move_exact (fun i => 1000 * Z.of_nat i) run_init 3 500
              ltac:(lia) Hgap) as (_ & _ & _ & _ & Hlive & _).
  exact Hlive.
Defined.

Example ex_three_steps :
  let r := ticks (nows (fun i => 1000 * Z.of_nat i) 0 12)
                 (state_of (do_move 3 500 run_init)) in
  (rising_edges (events_of r), remaining (state_of r)) = (3%nat, 0).
Proof. vm_compute. reflexivity. Qed.

(** ** Speed setting *)

(** No tick and no command line writes [pulseWidthUs]: it is 3 in every
    state the sketch reaches. *)
Lemma pulse_width_constant (inputs : list Input) :
  forall st : Runner,
    pulseWidthUs (state_of (exec inputs st)) = pulseWidthUs st.
Proof.
  induction inputs as [|i rest IH]; intros st; [reflexivity|].
  destruct (exec_cons i rest st) as [Hs _]. rewrite Hs, IH.
  destruct i as [now|s]; cbn [step_input].
  - rewrite serviceStepper_eq.
    destruct (stepHigh st), (shouldStep st),
      (deadline_reached now (stepHighUntilUs st)),
      (deadline_reached now (nextStepUs st)); reflexivity.
  - apply handleLine_frame.
Qed.

Lemma pulse_width_reachable (inputs : list Input) :
  pulseWidthUs (state_of (exec inputs run_init)) = 3.
Proof. rewrite pulse_width_constant. reflexivity. Qed.

Lemma int_small (z : Z) : INT_MIN <= z <= INT_MAX -> int_ z = z.
Proof.
  unfold int_, to_signed, INT_MIN, INT_MAX, INT_BITS.
  change (2 ^ (16 - 1)) with 32768. change (2 ^ 16) with 65536.
  intros H. rewrite Z.mod_small by lia. lia.
Qed.

Lemma int_range (z : Z) : INT_MIN <= int_ z <= INT_MAX.
Proof.
  unfold int_, to_signed, INT_MIN, INT_MAX, INT_BITS.
  change (2 ^ (16 - 1)) with 32768. change (2 ^ 16) with 65536.
  pose proof (Z.mod_pos_bound (z + 32768) 65536 eq_refl). lia.
Qed.

(** What [setSpeedSps] does with the value its [int] parameter holds. *)
Lemma setSpeedSps_int (sps : Z) (st : Runner) :
  INT_MIN <= sps <= INT_MAX ->
  0 <= pulseWidthUs st <= 2 ^ 32 - 5 ->
  setSpeedSps sps st
  = (tt,
     with_stepIntervalUs
       (Z.max (1000000 / Z.max 1 sps) (pulseWidthUs st + 4))
       (with_lastSps (Z.max 1 sps) st),
     []).
Proof.
  intros Hint Hpw. change (2 ^ 32) with 4294967296 in Hpw.
  pose proof Hint as Hint'. unfold INT_MIN, INT_MAX, INT_BITS in Hint'.
  change (2 ^ (16 - 1)) with 32768 in Hint'.
  set (c := Z.max 1 sps).
  assert (Hc : 1 <= c <= 32767) by (subst c; lia).
  assert (Hcode : (if (if sps <? 1 then 1 else sps) >? 40000 then int_ 40000
                   else (if sps <? 1 then 1 else sps)) = c).
  { subst c. destruct (Z.ltb_spec sps 1).
    - destruct (Z.gtb_spec 1 40000); lia.
    - destruct (Z.gtb_spec sps 40000); lia. }
  assert (Hq : 0 <= 1000000 / c <= 1000000).
  { split; [apply Z.div_pos; lia | apply Z.div_le_upper_bound; nia]. }
  unfold setSpeedSps. cbv zeta. rewrite (int_small sps Hint), Hcode.
  run_M. cbn.
  unfold u32, to_unsigned. change (2 ^ 32) with 4294967296.
  rewrite (Z.mod_small c) by lia.
  rewrite (Z.mod_small (1000000 / c)) by lia.
  rewrite (Z.mod_small (pulseWidthUs st + 4)) by lia.
  destruct (Z.ltb_spec (1000000 / c) (pulseWidthUs st + 4)).
  - rewrite Z.max_r by lia. reflexivity.
  - rewrite Z.max_l by lia. reflexivity.
Qed.




(** ** Disabling and stopping *)

Lemma line_no_rising (s : string) (st : Runner) :
  rising_edges (events_of (handleLine s st)) = 0%nat.
Proof.
  rewrite rising_edges_levels.
  destruct (handleLine_frame s st) as [H _]. rewrite H. reflexivity.
Qed.

Lemma tick_no_rising (now : Z) (st : Runner) :
  shouldStep st = false ->
  rising_edges (events_of (serviceStepper now st)) = 0%nat.
Proof.
  intros H. rewrite serviceStepper_eq, H.
  destruct (stepHigh st), (deadline_reached now (stepHighUntilUs st));
    reflexivity.
Qed.

Lemma disabled_no_rising (inputs : list Input) :
  forall st : Runner,
    enabled st = false -> stays_disabled inputs st = true ->
    rising_edges (events_of (exec inputs st)) = 0%nat.
Proof.
  induction inputs as [|i rest IH]; intros st Hen Hstay; [reflexivity|].
  cbn [stays_disabled] in Hstay. apply andb_true_iff in Hstay.
  destruct Hstay as [Hoff Hrest]. apply negb_true_iff in Hoff.
  destruct (exec_cons i rest st) as [_ He]. rewrite He, rising_edges_app.
  rewrite (IH _ Hoff Hrest), Nat.add_0_r.
  destruct i as [now|s]; cbn [step_input].
  - apply tick_no_rising. unfold shouldStep. rewrite Hen. reflexivity.
  - apply line_no_rising.
Qed.

(** C6. Disable mid-pulse: [setEnable false] during a pulse only clears
    [enabled] and writes the enable pin, so [stepHigh] and the release
    deadline are as before; the next ticks do nothing until the first
    one that reaches that deadline, which writes LOW to the step output
    (and under a free-running clock such a tick comes); and no rising edge
    is written for as long as [enabled] stays false. *)
Theorem disable_mid_pulse :
  forall (t : nat -> Z) (st : Runner) (inputs : list Input) (now : Z) (i : nat),
    stepHigh st = true ->
    (forall n : nat, 0 < t (S n) - t n <= 2 ^ 31) ->
    stays_disabled inputs (with_enabled false st) = true ->
    let off := with_enabled false st in
    setEnable false st = (tt, off, [DigitalWrite EN_PIN HIGH])
    /\ stepHigh off = true
    /\ stepHighUntilUs off = stepHighUntilUs st
    /\ serviceStepper now off
       = (if deadline_reached now (stepHighUntilUs st)
          then (tt, with_stepHigh false off, [DigitalWrite STEP_PIN LOW])
          else (tt, off, []))
    /\ (exists j : nat,
          state_of (ticks (nows t i (S j)) off) = with_stepHigh false off
          /\ events_of (ticks (nows t i (S j)) off)
             = [DigitalWrite STEP_PIN LOW])
    /\ rising_edges (events_of (exec inputs off)) = 0%nat.
Proof.
  intros t st inputs now i Hh gap Hstay off.
  split; [reflexivity|]. split; [exact Hh|]. split; [reflexivity|].
  split; [|split].
  - rewrite serviceStepper_eq. cbn. rewrite Hh. reflexivity.
  - apply (pulse_falls t gap off i). exact Hh.
  - apply disabled_no_rising; [reflexivity | exact Hstay].
Qed.

Lemma disable_mid_pulse_witness :
  let off := with_enabled false (fired 100 (with_enabled true
               (with_continuous true run_init))) in
  serviceStepper 102 off = (tt, off, [])
  /\ serviceStepper 103 off
     = (tt, with_stepHigh false off, [DigitalWrite STEP_PIN LOW])
  /\ rising_edges (events_of
       (exec [Tick 102; Tick 103; Line "dir 1"; Tick 5000; Tick 9000] off))
     = 0%nat.
Proof.
  assert (Hgap : forall n : nat,
             0 < 1000 * Z.of_nat (S n) - 1000 * Z.of_nat n <= 2 ^ 31).
  { intros n. change (2 ^ 31) with 2147483648. lia. }
  pose proof (fun now => disable_mid_pulse (fun n => 1000 * Z.of_nat n)
                (fired 100 (with_enabled true (with_continuous true run_init)))
                [Tick 102; Tick 103; Line "dir 1"; Tick 5000; Tick 9000]
                now 0%nat eq_refl Hgap eq_refl) as H.
  intros off.
  destruct (H 102) as (_ & _ & _ & H102 & _ & Hnone).
  destruct (H 103) as (_ & _ & _ & H103 & _).
  split; [exact H102 | split; [exact H103 | exact Hnone]].
Defined.

Lemma handleLine_stays_stopped (s : string) (st : Runner) :
  starts_motion s = false ->
  continuous st = false -> remaining st = 0 ->
  continuous (state_of (handleLine s st)) = false
  /\ remaining (state_of (handleLine s st)) = 0.
Proof.
  unfold starts_motion, handleLine.
  destruct (tokens s) as [|cmd args]; [intros _ Hc Hr; split; assumption|].
  intros H Hc Hr. apply orb_false_iff in H. destruct H as [Hrun Hmove].
  cbv zeta. rewrite Hrun, Hmove.
  destruct (nth_error args 0) as [a|]; split_ifs; run_M; split_ifs; cbn;
    split; solve [assumption | reflexivity].
Qed.

Lemma stopped_no_rising (inputs : list Input) :
  forall st : Runner,
    continuous st = false -> remaining st = 0 ->
    no_motion_command inputs = true ->
    rising_edges (events_of (exec inputs st)) = 0%nat
    /\ continuous (state_of (exec inputs st)) = false
    /\ remaining (state_of (exec inputs st)) = 0.
Proof.
  induction inputs as [|i rest IH]; intros st Hc Hr Hno; [cbn; auto|].
  cbn [no_motion_command forallb] in Hno. apply andb_true_iff in Hno.
  destruct Hno as [Hi Hrest].
  destruct (exec_cons i rest st) as [Hs He]. rewrite Hs, He, rising_edges_app.
  assert (Hstep : rising_edges (events_of (step_input i st)) = 0%nat
                  /\ continuous (state_of (step_input i st)) = false
                  /\ remaining (state_of (step_input i st)) = 0).
  { destruct i as [now|s]; cbn [step_input].
    - assert (Hq : shouldStep st = false).
      { unfold shouldStep. rewrite Hc, Hr. apply andb_false_r. }
      split; [apply tick_no_rising; exact Hq|].
      rewrite serviceStepper_eq, Hq.
      destruct (stepHigh st), (deadline_reached now (stepHighUntilUs st));
        cbn; auto.
    - apply negb_true_iff in Hi.
      destruct (handleLine_stays_stopped s st Hi Hc Hr) as [Kc Kr].
      split; [apply line_no_rising | auto]. }
  destruct Hstep as (E0 & C0 & R0).
  destruct (IH _ C0 R0 Hrest) as (E1 & C1 & R1).
  rewrite E0, E1. auto.
Qed.

(** C7. Stop: the [stop] command clears [continuous], zeroes [remaining],
    changes no other field, writes no pin and prints [stopped]; a tick
    after it releases a pulse in flight when its deadline is reached and
    does nothing otherwise; and no rising edge is written, through any
    ticks and command lines, before a [run] or [move] line arrives. *)
Theorem stop_frame :
  forall (st : Runner) (inputs : list Input) (now : Z),
    no_motion_command inputs = true ->
    let stopped := with_remaining 0 (with_continuous false st) in
    handleLine "stop" st = (tt, stopped, [SerialPrintln "stopped"])
    /\ stopped
       = mkRunner (enabled st) false (dir st) 0 (stepIntervalUs st)
                  (pulseWidthUs st) (nextStepUs st) (stepHigh st)
                  (stepHighUntilUs st) (lastSps st)
    /\ serviceStepper now stopped
       = (if stepHigh st && deadline_reached now (stepHighUntilUs st)
          then (tt, with_stepHigh false stopped, [DigitalWrite STEP_PIN LOW])
          else (tt, stopped, []))
    /\ rising_edges (events_of (exec inputs stopped)) = 0%nat.
Proof.
  intros st inputs now Hno stopped.
  split; [reflexivity|]. split; [reflexivity|]. split.
  - rewrite serviceStepper_eq. cbn.
    destruct (stepHigh st); cbn; [reflexivity|].
    unfold shouldStep. cbn. rewrite andb_false_r. reflexivity.
  - apply stopped_no_rising; [reflexivity | reflexivity | exact Hno].
Qed.

Lemma stop_frame_witness :
  let st := fired 100 (with_enabled true (with_continuous true run_init)) in
  let stopped := with_remaining 0 (with_continuous false st) in
  handleLine "stop" st = (tt, stopped, [SerialPrintln "stopped"])
  /\ serviceStepper 103 stopped
     = (tt, with_stepHigh false stopped, [DigitalWrite STEP_PIN LOW])
  /\ rising_edges (events_of
       (exec [Tick 103; Line "enable 1"; Tick 4000; Line "dir 1"; Tick 9000]
             stopped)) = 0%nat.
Proof.
  destruct (stop_frame
              (fired 100 (with_enabled true (with_continuous true run_init)))
              [Tick 103; Line "enable 1"; Tick 4000; Line "dir 1"; Tick 9000]
              103 eq_refl) as (H1 & _ & H3 & H4).
  intros st stopped.
  split; [exact H1 | split; [exact H3 | exact H4]].
Defined.

(** ** Continuous runs *)

Lemma do_run_state (sps : Z) (st : Runner) :
  continuous (state_of (do_run sps st)) = true
  /\ remaining (state_of (do_run sps st)) = 0
  /\ enabled (state_of (do_run sps st)) = true
  /\ dir (state_of (do_run sps st)) = (sps <? 0).
Proof. run_M. split_ifs; cbn; repeat split. Qed.

Lemma continuous_tick (now : Z) (st : Runner) :
  continuous st = true ->
  remaining (state_of (serviceStepper now st)) = remaining st.
Proof.
  intros Hc.
  destruct (tick_remaining now st) as [(_ & _ & Hf & _) | [H _]];
    [congruence | exact H].
Qed.

Lemma continuous_ticks (l : list Z) :
  forall st : Runner,
    continuous st = true ->
    remaining (state_of (ticks l st)) = remaining st
    /\ continuous (state_of (ticks l st)) = true.
Proof.
  induction l as [|now l IH]; intros st Hc; [split; [reflexivity | exact Hc]|].
  destruct (ticks_cons now l st) as [Hs _]. rewrite Hs.
  destruct (tick_mode now st) as [Hm _].
  destruct (IH (state_of (serviceStepper now st))) as [I1 I2]; [congruence|].
  rewrite I1, I2, continuous_tick by exact Hc. split; reflexivity.
Qed.

(** C9. Continuous run never decrements [remaining]: the [run] command
    (with or without its argument) sets [continuous] and zeroes
    [remaining]; through any ticks after it [remaining] stays 0 and the
    mode stays continuous; and a tick in continuous mode leaves
    [remaining] as it is, whether or not it writes a rising edge. *)
Theorem continuous_never_decrements :
  forall (a : option string) (st s : Runner) (l : list Z) (now : Z),
    let running := state_of (cmd_run a st) in
    continuous running = true
    /\ remaining running = 0
    /\ remaining (state_of (ticks l running)) = 0
    /\ continuous (state_of (ticks l running)) = true
    /\ remaining (state_of (serviceStepper now (with_continuous true s)))
       = remaining s.
Proof.
  intros a st s l now running.
  assert (Hrun : continuous running = true /\ remaining running = 0).
  { subst running. unfold cmd_run. rewrite bind_state.
    destruct (do_run_state (fst (fst (sps_arg a st))) (state_of (sps_arg a st)))
      as (Hc & Hr & _). split; assumption. }
  destruct Hrun as [Hc Hr].
  destruct (continuous_ticks l running Hc) as [T1 T2].
  repeat split; try assumption; try congruence.
  apply (continuous_tick now (with_continuous true s)). reflexivity.
Qed.

Example ex_run_edges :
  let r := ticks (nows (fun i => 1000 * Z.of_nat i) 0 20)
                 (state_of (handleLine "run -500" run_init)) in
  (rising_edges (events_of r), remaining (state_of r), dir (state_of r))
  = (10%nat, 0, true).
Proof. vm_compute. reflexivity. Qed.

(** ** Sign of the speed argument of [move] *)

(** C10. The sign of the speed argument of [move] is ignored: for a
    negative [sps] whose negation is an [int], [move steps sps] and
    [move steps (-sps)] give the same state and the same output; the
    direction is the sign of [steps] and the stored speed is [|sps|]
    capped at 40000. *)
Theorem move_speed_sign_ignored :
  forall (st : Runner) (steps sps : Z),
    INT_MIN < sps < 0 ->
    do_move steps sps st = do_move steps (- sps) st
    /\ dir (state_of (do_move steps sps st)) = (steps <? 0)
    /\ lastSps (state_of (do_move steps sps st)) = Z.min 40000 (Z.abs sps).
Proof.
  intros st steps sps H.
  assert (Hneg : (sps <? 0) = true) by (apply Z.ltb_lt; lia).
  assert (Hpos : (- sps <? 0) = false) by (apply Z.ltb_ge; lia).
  assert (Hint : int_ (- sps) = - sps).
  { apply int_small. unfold INT_MIN, INT_MAX, INT_BITS in *.
    change (2 ^ (16 - 1)) with 32768 in *. lia. }
  split; [|split].
  - unfold do_move. rewrite Hneg, Hpos, Hint. reflexivity.
  - run_M. split_ifs; cbn; reflexivity.
  - unfold do_move. rewrite Hneg, Hint. run_M. rewrite !Hint.
    assert (H1 : (- sps <? 1) = false) by (apply Z.ltb_ge; lia).
    rewrite H1.
    unfold INT_MIN, INT_BITS in H. change (2 ^ (16 - 1)) with 32768 in H.
    destruct (Z.gtb_spec (- sps) 40000); [lia|].
    split_ifs; cbn; lia.
Qed.

Lemma move_speed_sign_ignored_witness :
  do_move (-100) (-500) run_init = do_move (-100) 500 run_init
  /\ lastSps (state_of (do_move (-100) (-500) run_init)) = 500.
Proof.
  destruct (move_speed_sign_ignored run_init (-100) (-500)) as (H1 & _ & H3).
  - unfold INT_MIN, INT_BITS. cbn. lia.
  - split; [exact H1 | exact H3].
Defined.

(** ** Missing and unparseable arguments *)

(** A token that does not start a number reads as 0. *)
Lemma atoi_not_a_number (c : ascii) (rest : string) :
  isspace c = false -> digit_of c = None ->
  (c =? "-")%char = false -> (c =? "+")%char = false ->
  atoi (String c rest) = 0.
Proof.
  intros Hsp Hd Hm Hp. unfold atoi, decimal_value.
  cbn [skip_space]. rewrite Hsp.
  apply Ascii.eqb_neq in Hm. apply Ascii.eqb_neq in Hp.
  assert (Hv : digits_value 0 (String c rest) = 0) by (cbn; rewrite Hd; reflexivity).
  destruct c as [b0 b1 b2 b3 b4 b5 b6 b7].
  destruct b0, b1, b2, b3, b4, b5, b6, b7;
    try (exfalso; apply Hm; reflexivity);
    try (exfalso; apply Hp; reflexivity);
    rewrite Hv; reflexivity.
Qed.

(** [enable] with no argument switches an enabled driver off, [dir] with
    no argument clears the direction, and [current abc] programs the
    driver with the lowest current: none of these is a no-op. *)
Lemma missing_argument_not_noop :
  enabled (with_enabled true run_init) = true
  /\ enabled (state_of (handleLine "enable" (with_enabled true run_init)))
     = false
  /\ events_of (handleLine "enable" (with_enabled true run_init))
     = [DigitalWrite EN_PIN HIGH; SerialPrint "enable="; SerialPrintlnNum 0]
  /\ dir (with_dir true run_init) = true
  /\ dir (state_of (handleLine "dir" (with_dir true run_init))) = false
  /\ events_of (handleLine "current abc" run_init)
     = [Driver (rms_current 50); SerialPrint "rms_current(mA)=";
        SerialPrintlnNum 50]
  /\ remaining (with_remaining 7 run_init) = 7
  /\ remaining (state_of (handleLine "move abc" (with_remaining 7 run_init)))
     = 0.
Proof. vm_compute. repeat split. Qed.

(** [atoi] and [atol] read a token that holds no number as 0. *)
Lemma unparseable_reads_zero (t : string) :
  unparseable t = true -> atoi t = 0 /\ atol t = 0.
Proof.
  intros H.
  assert (Hbody : forall b : string,
             match b with
             | String d _ =>
                 match digit_of d with Some _ => false | None => true end
             | EmptyString => true
             end = true ->
             digits_value 0 b = 0).
  { intros [|d b']; cbn [digits_value]; [reflexivity|].
    destruct (digit_of d); [discriminate | reflexivity]. }
  assert (Hv : decimal_value t = 0).
  { unfold unparseable in H. unfold decimal_value.
    destruct (skip_space t) as [|c r]; [reflexivity|].
    destruct c as [b0 b1 b2 b3 b4 b5 b6 b7].
    destruct b0, b1, b2, b3, b4, b5, b6, b7;
      cbv beta iota in H |- *;
      first [ rewrite (Hbody r H)
            | match goal with
              | |- context [digits_value 0 (String ?c r)] =>
                  rewrite (Hbody (String c r) H)
              end ];
      reflexivity. }
  unfold atoi, atol. rewrite Hv. split; reflexivity.
Qed.

(** C8, as the interpreter implements it.  A line that consists of the
    command word alone: for [move], [current], [microsteps], [stealth] and
    [sgthrs] the interpreter prints "<command> needs ..." and changes
    nothing, writing no pin and calling no driver function; [enable] and
    [dir] act as with argument 0 and report the new value; [run] runs at
    the last speed.  A line whose argument holds no number is not
    rejected: the argument reads as 0 and the command is carried out with
    0, so [enable] and [dir] clear their flag, [run] starts a continuous
    run at the lowest speed, [move] starts a move of 0 steps, and
    [current], [microsteps], [stealth] and [sgthrs] program the driver
    with 50 mA, 0, spreadCycle and 0. *)
Theorem missing_argument :
  forall (s cmd : string) (st : Runner),
    (tokens s = [cmd] ->
     (In cmd ["move"; "current"; "microsteps"; "stealth"; "sgthrs"] ->
      exists hint : string,
        handleLine s st
        = (tt, st, [SerialPrintln (cmd ++ " needs " ++ hint)%string]))
     /\ (cmd = "enable" ->
         handleLine s st
         = (tt, with_enabled false st,
            [DigitalWrite EN_PIN HIGH; SerialPrint "enable=";
             SerialPrintlnNum 0]))
     /\ (cmd = "dir" ->
         handleLine s st
         = (tt, with_dir false st,
            [DigitalWrite DIR_PIN LOW; SerialPrint "dir=";
             SerialPrintlnNum 0]))
     /\ (cmd = "run" -> handleLine s st = do_run (lastSps st) st))
    /\ (forall (a : string) (rest : list string),
          tokens s = cmd :: a :: rest ->
          unparseable a = true ->
          (cmd = "enable" ->
           handleLine s st
           = (tt, with_enabled false st,
              [DigitalWrite EN_PIN HIGH; SerialPrint "enable=";
               SerialPrintlnNum 0]))
          /\ (cmd = "dir" ->
              handleLine s st
              = (tt, with_dir false st,
                 [DigitalWrite DIR_PIN LOW; SerialPrint "dir=";
                  SerialPrintlnNum 0]))
          /\ (cmd = "run" ->
              handleLine s st = do_run 0 st
              /\ continuous (state_of (handleLine s st)) = true
              /\ enabled (state_of (handleLine s st)) = true
              /\ lastSps (state_of (handleLine s st)) = 1)
          /\ (cmd = "move" ->
              handleLine s st
              = do_move 0 (match nth_error rest 0 with
                           | Some b => atoi b
                           | None => lastSps st
                           end) st
              /\ remaining (state_of (handleLine s st)) = 0
              /\ continuous (state_of (handleLine s st)) = false
              /\ enabled (state_of (handleLine s st)) = true)
          /\ (cmd = "current" ->
              handleLine s st
              = (tt, st,
                 [Driver (rms_current 50); SerialPrint "rms_current(mA)=";
                  SerialPrintlnNum 50]))
          /\ (cmd = "microsteps" ->
              handleLine s st
              = (tt, st,
                 [Driver (microsteps 0); SerialPrint "microsteps=";
                  SerialPrintlnNum 0]))
          /\ (cmd = "stealth" ->
              handleLine s st
              = (tt, st,
                 [Driver (en_spreadCycle true); Driver (pwm_autoscale true);
                  SerialPrint "stealth="; SerialPrintlnNum 0]))
          /\ (cmd = "sgthrs" ->
              handleLine s st
              = (tt, st,
                 [Driver (SGTHRS 0); SerialPrint "SGTHRS=";
                  SerialPrintlnNum 0]))).
Proof.
  intros s cmd st. split.
  - intros Htok. unfold handleLine. rewrite Htok.
    repeat split.
    + intros Hin. cbn [In] in Hin.
      destruct Hin as [<- | [<- | [<- | [<- | [<- | []]]]]]; cbn.
      * exists "<steps>". reflexivity.
      * exists "<mA>". reflexivity.
      * exists "<n>". reflexivity.
      * exists "0|1". reflexivity.
      * exists "0..255". reflexivity.
    + intros ->. reflexivity.
    + intros ->. reflexivity.
    + intros ->. cbn -[cmd_run]. unfold cmd_run, sps_arg. apply bind_gets.
  - intros a rest Htok Hun.
    destruct (unparseable_reads_zero a Hun) as [Hi Hl].
    assert (Hflag : flag_arg (Some a) = false)
      by (unfold flag_arg; rewrite Hi; reflexivity).
    unfold handleLine. rewrite Htok. cbv zeta.
    change (nth_error (a :: rest) 0) with (Some a).
    change (nth_error (a :: rest) 1) with (nth_error rest 0).
    repeat apply conj; intros ->; cbn [String.eqb Ascii.eqb Bool.eqb orb].
    + unfold cmd_enable. rewrite Hflag. reflexivity.
    + unfold cmd_dir. rewrite Hflag. reflexivity.
    + assert (Hrun : cmd_run (Some a) st = do_run 0 st).
      { unfold cmd_run, sps_arg. rewrite Hi. unfold bind at 1, ret.
        destruct (do_run 0 st) as [[u st2] e2]. reflexivity. }
      rewrite Hrun.
      destruct (do_run_state 0 st) as (Hc & _ & He & _).
      repeat split; try assumption.
      unfold do_run. change (0 <? 0) with false. cbv iota.
      unfold setSpeedSps. cbv zeta. change (int_ 0) with 0.
      change (0 <? 1) with true. cbv iota. change (1 >? 40000) with false.
      cbv iota. run_M. split_ifs; reflexivity.
    + assert (Hmove : cmd_move (Some a) (nth_error rest 0) st
                      = do_move 0 (match nth_error rest 0 with
                                   | Some b => atoi b
                                   | None => lastSps st
                                   end) st).
      { unfold cmd_move. rewrite Hl.
        destruct (nth_error rest 0) as [b|]; cbn [sps_arg].
        - unfold bind at 1, ret.
          destruct (do_move 0 (atoi b) st) as [[u st2] e2]. reflexivity.
        - apply bind_gets. }
      rewrite Hmove.
      destruct (do_move_state 0 (match nth_error rest 0 with
                                 | Some b => atoi b
                                 | None => lastSps st
                                 end) st ltac:(lia))
        as (Hr & He & Hc & _).
      repeat split; assumption.
    + unfold cmd_current. rewrite Hi. reflexivity.
    + unfold cmd_microsteps. rewrite Hi. reflexivity.
    + unfold cmd_stealth. rewrite Hi. reflexivity.
    + unfold cmd_sgthrs. rewrite Hi. reflexivity.
Qed.

Lemma missing_argument_witness :
  (exists hint : string,
     handleLine "  move " run_init
     = (tt, run_init, [SerialPrintln ("move" ++ " needs " ++ hint)%string]))
  /\ handleLine "enable" (with_enabled true run_init)
     = (tt, with_enabled false (with_enabled true run_init),
        [DigitalWrite EN_PIN HIGH; SerialPrint "enable="; SerialPrintlnNum 0])
  /\ handleLine "current abc" run_init
     = (tt, run_init,
        [Driver (rms_current 50); SerialPrint "rms_current(mA)=";
         SerialPrintlnNum 50])
  /\ remaining (state_of (handleLine "move -x 200"
                                     (with_remaining 7 run_init))) = 0.
Proof.
  split; [|split; [|split]].
  - destruct (missing_argument "  move " "move" run_init) as ((H & _) & _).
    + reflexivity.
    + apply H. cbn. auto.
  - destruct (missing_argument "enable" "enable" (with_enabled true run_init))
      as ((_ & H & _) & _).
    + reflexivity.
    + apply H. reflexivity.
  - destruct (missing_argument "current abc" "current" run_init) as (_ & H).
    destruct (H "abc" [] eq_refl eq_refl) as (_ & _ & _ & _ & Hc & _).
    apply Hc. reflexivity.
  - destruct (missing_argument "move -x 200" "move"
                (with_remaining 7 run_init)) as (_ & H).
    destruct (H "-x" ["200"] eq_refl eq_refl) as (_ & _ & _ & Hm & _).
    destruct (Hm eq_refl) as (_ & Hr & _). exact Hr.
Defined.

(** ** The "move done" report *)

(** When an iteration of [loop] reports: the mode is not continuous, the
    count it leaves is 0 and the count sampled by the previous iteration
    (-1 before the first) is not. *)
Lemma loop_report (input : list ascii) (now : Z) (sk : Sketch) :
  lastRemaining (fst (loop input now sk)) = remaining (run (fst (loop input now sk)))
  /\ exists evs : list Event,
       snd (loop input now sk)
       = evs ++ (if negb (continuous (run (fst (loop input now sk))))
                    && negb (lastRemaining sk =? 0)
                    && (remaining (run (fst (loop input now sk))) =? 0)
                 then [SerialPrintln "move done"] else []).
Proof.
  unfold loop.
  destruct (serviceSerial input (lineBuf sk) (run sk)) as [[buf1 st1] e1].
  destruct (serviceStepper now st1) as [[u st2] e2]. cbn.
  split; [reflexivity|]. exists (e1 ++ e2). rewrite app_assoc. reflexivity.
Qed.

(** C4, on the code: the first iteration of [loop] after start-up, with
    no serial input, prints "move done" although no move was ever issued
    and [remaining] has been 0 throughout; and a one-step move whose step
    fires in the iteration that reads the command completes without any
    "move done". *)
Theorem move_done_misreported :
  (forall now : Z,
      loop [] now sketch_init
      = ({| run := run_init; lineBuf := EmptyString; lastRemaining := 0 |},
         [SerialPrintln "move done"]))
  /\ (let idle := {| run := run_init; lineBuf := EmptyString;
                     lastRemaining := 0 |} in
      let r := loops [(list_ascii_of_string ("move 1" ++ nl), 100);
                      ([], 103); ([], 2200); ([], 4400)] idle in
      remaining (run idle) = 0
      /\ rising_edges (snd r) = 1%nat
      /\ remaining (run (fst r)) = 0
      /\ stepHigh (run (fst r)) = false
      /\ move_done_reports (snd r) = 0%nat).
Proof.
  split.
  - intros now. unfold loop. cbn [serviceSerial sketch_init lineBuf run].
    rewrite serviceStepper_eq. reflexivity.
  - vm_compute. repeat split.
Qed.

(** * Further properties of the interpreter, the scheduler and the loop *)

(** ** Blank lines and unknown words *)

Lemma split_delim_nonempty (s : string) : split_delim s <> [].
Proof.
  destruct s as [|c s]; cbn; [discriminate|].
  destruct (is_delim c); [discriminate|].
  destruct (split_delim s); discriminate.
Qed.

Lemma tokens_cons_delim (c : ascii) (s : string) :
  is_delim c = true -> tokens (String c s) = tokens s.
Proof. intros H. unfold tokens. cbn. rewrite H. reflexivity. Qed.

Lemma tokens_cons_other (c : ascii) (s : string) :
  is_delim c = false -> tokens (String c s) <> [].
Proof.
  intros H. unfold tokens. cbn. rewrite H.
  destruct (split_delim s) as [|t ts] eqn:Hs.
  - exfalso. exact (split_delim_nonempty s Hs).
  - cbn. discriminate.
Qed.

Lemma tokens_blank (s : string) :
  tokens s = [] <-> forallb is_delim (list_ascii_of_string s) = true.
Proof.
  induction s as [|c s IH]; [split; reflexivity|].
  cbn [list_ascii_of_string forallb].
  destruct (is_delim c) eqn:Hc.
  - rewrite (tokens_cons_delim c s Hc). exact IH.
  - split; [|discriminate].
    intros H. exfalso. exact (tokens_cons_other c s Hc H).
Qed.

(** Every command word makes the interpreter print something. *)
Lemma handleLine_prints (s : string) (st : Runner) :
  tokens s <> [] -> events_of (handleLine s st) <> [].
Proof.
  unfold handleLine.
  destruct (tokens s) as [|cmd args]; [intros H; exfalso; apply H; reflexivity|].
  intros _. cbv zeta.
  destruct (nth_error args 0) as [a|]; destruct (nth_error args 1) as [b|];
    split_ifs; run_M; split_ifs; cbn; discriminate.
Qed.

(** X1. A line of blanks and tabs only (the empty line included) is
    ignored: no state change and no output; and it is the only kind of
    line that produces no output at all. *)
Theorem blank_line_ignored :
  forall (s : string) (st : Runner),
    (forallb is_delim (list_ascii_of_string s) = true ->
     handleLine s st = (tt, st, []))
    /\ (events_of (handleLine s st) = [] ->
        forallb is_delim (list_ascii_of_string s) = true).
Proof.
  intros s st. split.
  - intros H. apply tokens_blank in H. unfold handleLine. rewrite H.
    reflexivity.
  - intros H. apply tokens_blank.
    destruct (tokens s) as [|cmd args] eqn:Ht; [reflexivity|].
    exfalso. apply (handleLine_prints s st); [rewrite Ht; discriminate | exact H].
Qed.

(** X2. A line whose first word is none of the known commands is
    reported as "unknown: <word>" and changes nothing, whatever follows
    the word. *)
Theorem unknown_command_reported :
  forall (s cmd : string) (args : list string) (st : Runner),
    tokens s = cmd :: args ->
    is_known cmd = false ->
    handleLine s st
    = (tt, st, [SerialPrint "unknown: "; SerialPrintln cmd]).
Proof.
  intros s cmd args st Ht Hk. unfold handleLine. rewrite Ht. cbv zeta.
  unfold is_known, known_commands in Hk. cbn [existsb] in Hk.
  repeat (apply orb_false_iff in Hk; destruct Hk as [?H Hk]).
  repeat match goal with
         | H : (cmd =? _)%string = false |- _ => rewrite H; clear H
         end.
  reflexivity.
Qed.

Lemma unknown_command_reported_witness :
  handleLine "halt now" (with_enabled true run_init)
  = (tt, with_enabled true run_init,
     [SerialPrint "unknown: "; SerialPrintln "halt"]).
Proof.
  exact (unknown_command_reported "halt now" "halt" ["now"]
           (with_enabled true run_init) eq_refl eq_refl).
Defined.

Lemma blank_line_ignored_witness :
  handleLine "   " (with_remaining 4 run_init)
  = (tt, with_remaining 4 run_init, []).
Proof.
  destruct (blank_line_ignored "   " (with_remaining 4 run_init)) as [H _].
  apply H. reflexivity.
Defined.

(** ** The shapes a command line can take *)

Lemma constrain_range (x lo hi : Z) :
  lo <= hi -> lo <= constrain x lo hi <= hi.
Proof.
  intros H. unfold constrain.
  destruct (Z.ltb_spec x lo); [lia|].
  destruct (Z.gtb_spec x hi); lia.
Qed.

Lemma u16_range (z : Z) : 0 <= u16 z <= 65535.
Proof.
  unfold u16, to_unsigned. change (2 ^ 16) with 65536.
  pose proof (Z.mod_pos_bound z 65536 eq_refl). lia.
Qed.

Lemma u16_small (z : Z) : 0 <= z <= 65535 -> u16 z = z.
Proof.
  intros H. unfold u16, to_unsigned. change (2 ^ 16) with 65536.
  apply Z.mod_small. lia.
Qed.

Lemma u8_small (z : Z) : 0 <= z <= 255 -> u8 z = z.
Proof.
  intros H. unfold u8, to_unsigned. change (2 ^ 8) with 256.
  apply Z.mod_small. lia.
Qed.

Lemma cmd_run_eq (a : option string) (st : Runner) :
  cmd_run a st
  = do_run (match a with Some t => atoi t | None => lastSps st end) st.
Proof.
  unfold cmd_run. destruct a as [t|]; cbn [sps_arg].
  - unfold bind at 1, ret.
    destruct (do_run (atoi t) st) as [[u st2] e2]. reflexivity.
  - apply bind_gets.
Qed.

Lemma cmd_move_eq (ta : string) (b : option string) (st : Runner) :
  cmd_move (Some ta) b st
  = do_move (atol ta)
            (match b with Some t => atoi t | None => lastSps st end) st.
Proof.
  unfold cmd_move. destruct b as [t|]; cbn [sps_arg].
  - unfold bind at 1, ret.
    destruct (do_move (atol ta) (atoi t) st) as [[u st2] e2]. reflexivity.
  - apply bind_gets.
Qed.

(** A line either leaves the motion state and the pins alone (and then
    any driver argument is within its range), or it is one of the five
    motion commands. *)
Lemma handleLine_cases (s : string) (st : Runner) :
  (state_of (handleLine s st) = st
   /\ existsb is_pin_write (events_of (handleLine s st)) = false
   /\ Forall driver_arg_in_range (events_of (handleLine s st)))
  \/ (exists on : bool,
        handleLine s st
        = (tt, with_enabled on st,
           [DigitalWrite EN_PIN (en_level on); SerialPrint "enable=";
            SerialPrintlnNum (Z.b2z on)]))
  \/ (exists d : bool,
        handleLine s st
        = (tt, with_dir d st,
           [DigitalWrite DIR_PIN d; SerialPrint "dir=";
            SerialPrintlnNum (Z.b2z d)]))
  \/ handleLine s st = cmd_stop st
  \/ (exists sps : Z, handleLine s st = do_run sps st)
  \/ (exists steps sps : Z, handleLine s st = do_move steps sps st).
Proof.
  unfold handleLine.
  destruct (tokens s) as [|cmd args].
  { left. cbn. repeat split. constructor. }
  cbv zeta.
  destruct (cmd =? "help")%string.
  { left. cbn. repeat split. repeat constructor. }
  destruct ((cmd =? "info")%string || (cmd =? "dump")%string).
  { left. cbn. repeat split. repeat constructor. }
  destruct (cmd =? "enable")%string.
  { right. left. exists (flag_arg (nth_error args 0)).
    destruct (flag_arg (nth_error args 0)) eqn:Hf;
      run_M; rewrite Hf; reflexivity. }
  destruct (cmd =? "dir")%string.
  { right. right. left. exists (flag_arg (nth_error args 0)).
    destruct (flag_arg (nth_error args 0)) eqn:Hf;
      run_M; rewrite Hf; reflexivity. }
  destruct (cmd =? "stop")%string.
  { right. right. right. left. reflexivity. }
  destruct (cmd =? "run")%string.
  { right. right. right. right. left. eexists. apply cmd_run_eq. }
  destruct (cmd =? "move")%string.
  { destruct (nth_error args 0) as [ta|].
    - right. right. right. right. right. eexists. eexists. apply cmd_move_eq.
    - left. cbn. repeat split. repeat constructor. }
  destruct (cmd =? "current")%string.
  { left. destruct (nth_error args 0) as [t|]; cbn; repeat split;
      try (repeat constructor; fail).
    pose proof (constrain_range (atoi t) 50 2000 ltac:(lia)) as Hc.
    rewrite u16_small by lia. repeat constructor; lia. }
  destruct (cmd =? "microsteps")%string.
  { left. destruct (nth_error args 0) as [t|]; cbn; repeat split;
      try (repeat constructor; fail).
    pose proof (u16_range (atoi t)) as Hc. repeat constructor; lia. }
  destruct (cmd =? "stealth")%string.
  { left. destruct (nth_error args 0) as [t|]; cbn; repeat split;
      repeat constructor. }
  destruct (cmd =? "sgthrs")%string.
  { left. destruct (nth_error args 0) as [t|]; cbn; repeat split;
      try (repeat constructor; fail).
    pose proof (constrain_range (atoi t) 0 255 ltac:(lia)) as Hc.
    rewrite u8_small by lia. repeat constructor; lia. }
  left. cbn. repeat split. repeat constructor.
Qed.

Lemma do_run_result (sps : Z) (st : Runner) :
  let d := sps <? 0 in
  let mag := if sps <? 0 then int_ (- sps) else sps in
  state_of (do_run sps st)
  = with_enabled true (with_remaining 0 (with_continuous true
      (state_of (setSpeedSps mag (with_dir d st)))))
  /\ events_of (do_run sps st)
     = [DigitalWrite DIR_PIN d; DigitalWrite EN_PIN LOW;
        SerialPrint "run sps="; SerialPrintNum mag; SerialPrint " dir=";
        SerialPrintlnNum (Z.b2z d)].
Proof.
  cbv zeta.
  pose proof (setSpeedSps_frame (if sps <? 0 then int_ (- sps) else sps)
                (with_dir (sps <? 0) st)) as F.
  cbv zeta in F. destruct F as (_ & _ & _ & _ & _ & _ & _ & _ & Fe).
  unfold do_run, bind, setDir, setEnable, modify, emit, digitalWrite,
    state_of, events_of in *.
  cbn -[setSpeedSps] in *.
  destruct (setSpeedSps (if sps <? 0 then int_ (- sps) else sps)
              (with_dir (sps <? 0) st)) as [[u s1] e1].
  cbn in *. subst e1. destruct (sps <? 0); split; reflexivity.
Qed.

Lemma do_move_result (steps sps : Z) (st : Runner) :
  let d := steps <? 0 in
  let count := if steps <? 0 then long_ (- steps) else steps in
  let mag := if sps <? 0 then int_ (- sps) else sps in
  state_of (do_move steps sps st)
  = with_enabled true (with_remaining count (with_continuous false
      (state_of (setSpeedSps mag (with_dir d st)))))
  /\ events_of (do_move steps sps st)
     = [DigitalWrite DIR_PIN d; DigitalWrite EN_PIN LOW;
        SerialPrint "move steps="; SerialPrintNum count;
        SerialPrint " sps="; SerialPrintNum mag; SerialPrint " dir=";
        SerialPrintlnNum (Z.b2z d)].
Proof.
  cbv zeta.
  pose proof (setSpeedSps_frame (if sps <? 0 then int_ (- sps) else sps)
                (with_dir (steps <? 0) st)) as F.
  cbv zeta in F. destruct F as (_ & _ & _ & _ & _ & _ & _ & _ & Fe).
  unfold do_move, bind, setDir, setEnable, modify, emit, digitalWrite,
    state_of, events_of in *.
  cbn -[setSpeedSps] in *.
  destruct (setSpeedSps (if sps <? 0 then int_ (- sps) else sps)
              (with_dir (steps <? 0) st)) as [[u s1] e1].
  cbn in *. subst e1. destruct (steps <? 0); split; reflexivity.
Qed.

(** ** Driver commands *)

(** X3. Whatever the line, an argument passed to the driver is within
    the range the interpreter clamps or casts it to (50..2000 mA for
    [current], 0..255 for [sgthrs], 16 bits for [microsteps]); and a line
    that calls the driver leaves the motion state as it was and writes no
    pin. *)
Theorem driver_commands_clamped :
  forall (s : string) (st : Runner),
    Forall driver_arg_in_range (events_of (handleLine s st))
    /\ (existsb is_driver_call (events_of (handleLine s st)) = true ->
        state_of (handleLine s st) = st
        /\ existsb is_pin_write (events_of (handleLine s st)) = false).
Proof.
  intros s st.
  destruct (handleLine_cases s st)
    as [(Hs & Hp & Hr) | [[on H] | [[d H] | [H | [[sps H] | [steps [sps H]]]]]]].
  - split; [exact Hr | intros _; split; assumption].
  - rewrite H. cbn. split; [repeat constructor | discriminate].
  - rewrite H. cbn. split; [repeat constructor | discriminate].
  - rewrite H. cbn. split; [repeat constructor | discriminate].
  - rewrite H. destruct (do_run_result sps st) as [_ He]. rewrite He. cbn.
    split; [repeat constructor | discriminate].
  - rewrite H. destruct (do_move_result steps sps st) as [_ He]. rewrite He.
    cbn. split; [repeat constructor | discriminate].
Qed.

Lemma driver_commands_clamped_witness :
  events_of (handleLine "current 9999" run_init)
  = [Driver (rms_current 2000); SerialPrint "rms_current(mA)=";
     SerialPrintlnNum 2000]
  /\ state_of (handleLine "current 9999" run_init) = run_init
  /\ existsb is_pin_write (events_of (handleLine "current 9999" run_init))
     = false.
Proof.
  destruct (driver_commands_clamped "current 9999" run_init) as [_ H].
  destruct (H eq_refl) as [Hs Hp].
  split; [reflexivity | split; [exact Hs | exact Hp]].
Defined.

(** ** Pins and fields *)

Lemma pin_level_app (p : Pin) (level : bool) (xs ys : list Event) :
  pin_level p level (xs ++ ys) = pin_level p (pin_level p level xs) ys.
Proof.
  revert level; induction xs as [|e xs IH]; intros level; [reflexivity|].
  destruct e as [q l| | | | | |]; cbn; try apply IH.
  destruct (Pin_eqb q p); apply IH.
Qed.

Lemma pin_level_no_write (p : Pin) (level : bool) (evs : list Event) :
  existsb is_pin_write evs = false -> pin_level p level evs = level.
Proof.
  induction evs as [|e evs IH]; [reflexivity|].
  destruct e; cbn; try exact IH. discriminate.
Qed.

Lemma setSpeedSps_fields (sps : Z) (st : Runner) :
  enabled (state_of (setSpeedSps sps st)) = enabled st
  /\ dir (state_of (setSpeedSps sps st)) = dir st
  /\ stepHigh (state_of (setSpeedSps sps st)) = stepHigh st.
Proof.
  destruct (setSpeedSps_frame sps st) as (H1 & _ & H3 & _ & _ & _ & H7 & _).
  auto.
Qed.

Lemma step_input_pins (i : Input) (st : Runner) :
  pin_level STEP_PIN (stepHigh st) (events_of (step_input i st))
  = stepHigh (state_of (step_input i st))
  /\ pin_level DIR_PIN (dir st) (events_of (step_input i st))
     = dir (state_of (step_input i st))
  /\ pin_level EN_PIN (en_level (enabled st)) (events_of (step_input i st))
     = en_level (enabled (state_of (step_input i st))).
Proof.
  destruct i as [now|s]; cbn [step_input].
  - rewrite serviceStepper_eq.
    destruct (stepHigh st) eqn:Hh, (shouldStep st),
      (deadline_reached now (stepHighUntilUs st)),
      (deadline_reached now (nextStepUs st)); cbn; rewrite ?Hh; auto.
  - destruct (handleLine_cases s st)
      as [(Hs & Hp & _) | [[on H] | [[d H] | [H | [[sps H] | [steps [sps H]]]]]]].
    + rewrite Hs, !pin_level_no_write by exact Hp. auto.
    + rewrite H. cbn. auto.
    + rewrite H. cbn. auto.
    + rewrite H. cbn. auto.
    + rewrite H. destruct (do_run_result sps st) as [Hs He].
      destruct (setSpeedSps_fields
                  (if sps <? 0 then int_ (- sps) else sps)
                  (with_dir (sps <? 0) st)) as (_ & Hd & Hh).
      rewrite Hs, He. cbn. cbn in Hd, Hh. rewrite Hd, Hh. auto.
    + rewrite H. destruct (do_move_result steps sps st) as [Hs He].
      destruct (setSpeedSps_fields
                  (if sps <? 0 then int_ (- sps) else sps)
                  (with_dir (steps <? 0) st)) as (_ & Hd & Hh).
      rewrite Hs, He. cbn. cbn in Hd, Hh. rewrite Hd, Hh. auto.
Qed.

(** X4. The three outputs mirror the state: through any ticks and command
    lines, if the step, direction and enable pins showed [stepHigh], [dir]
    and [enabled] (active low) before, they show them afterwards; no field
    changes without its pin being written. *)
Theorem pins_mirror_state :
  forall (inputs : list Input) (st : Runner),
    pin_level STEP_PIN (stepHigh st) (events_of (exec inputs st))
    = stepHigh (state_of (exec inputs st))
    /\ pin_level DIR_PIN (dir st) (events_of (exec inputs st))
       = dir (state_of (exec inputs st))
    /\ pin_level EN_PIN (en_level (enabled st)) (events_of (exec inputs st))
       = en_level (enabled (state_of (exec inputs st))).
Proof.
  induction inputs as [|i rest IH]; intros st; [cbn; auto|].
  destruct (exec_cons i rest st) as [Hs He]. rewrite Hs, He, !pin_level_app.
  destruct (step_input_pins i st) as (P1 & P2 & P3).
  rewrite P1, P2, P3. apply IH.
Qed.

(** ** Speed fields in reachable states *)

Lemma setSpeedSps_value (sps : Z) (st : Runner) :
  pulseWidthUs st = 3 ->
  1 <= Z.max 1 (int_ sps) <= 32767
  /\ state_of (setSpeedSps sps st)
     = with_stepIntervalUs (1000000 / Z.max 1 (int_ sps))
         (with_lastSps (Z.max 1 (int_ sps)) st).
Proof.
  intros Hpw.
  pose proof (int_range sps) as Hr.
  pose proof Hr as Hr'. unfold INT_MIN, INT_MAX, INT_BITS in Hr'.
  change (2 ^ (16 - 1)) with 32768 in Hr'.
  set (c := Z.max 1 (int_ sps)).
  assert (Hc : 1 <= c <= 32767) by (subst c; lia).
  split; [exact Hc|].
  assert (Hn : setSpeedSps sps st = setSpeedSps (int_ sps) st).
  { unfold setSpeedSps. cbv zeta.
    rewrite (int_small (int_ sps) Hr). reflexivity. }
  rewrite Hn, (setSpeedSps_int (int_ sps) st Hr).
  - fold c. rewrite Hpw. cbn [state_of fst snd].
    assert (Hq : 30 <= 1000000 / c).
    { apply Z.div_le_lower_bound; lia. }
    rewrite Z.max_l by lia. reflexivity.
  - rewrite Hpw. change (2 ^ 32) with 4294967296. lia.
Qed.

Lemma speed_consistent_bounds (st : Runner) :
  speed_consistent st ->
  pulseWidthUs st + 4 <= stepIntervalUs st
  /\ 25 <= stepIntervalUs st <= 1000000.
Proof.
  intros (Hl & Hi & Hp). rewrite Hi, Hp.
  assert (25 <= 1000000 / lastSps st <= 1000000).
  { split; [apply Z.div_le_lower_bound; lia
           | apply Z.div_le_upper_bound; nia]. }
  lia.
Qed.

Lemma setSpeedSps_consistent (sps : Z) (st : Runner) :
  pulseWidthUs st = 3 -> speed_consistent (state_of (setSpeedSps sps st)).
Proof.
  intros Hpw. destruct (setSpeedSps_value sps st Hpw) as [Hc Hs].
  rewrite Hs. unfold speed_consistent. cbn. repeat split; lia.
Qed.

Lemma step_input_speed (i : Input) (st : Runner) :
  speed_consistent st -> speed_consistent (state_of (step_input i st)).
Proof.
  intros Hsc. pose proof Hsc as (Hl & Hi & Hp).
  destruct i as [now|s]; cbn [step_input].
  - rewrite serviceStepper_eq.
    destruct (stepHigh st), (shouldStep st),
      (deadline_reached now (stepHighUntilUs st)),
      (deadline_reached now (nextStepUs st)); exact Hsc.
  - destruct (handleLine_cases s st)
      as [(Hs & _) | [[on H] | [[d H] | [H | [[sps H] | [steps [sps H]]]]]]].
    + rewrite Hs. exact Hsc.
    + rewrite H. exact Hsc.
    + rewrite H. exact Hsc.
    + rewrite H. exact Hsc.
    + rewrite H. destruct (do_run_result sps st) as [Hs _]. rewrite Hs.
      exact (setSpeedSps_consistent _ (with_dir (sps <? 0) st) Hp).
    + rewrite H. destruct (do_move_result steps sps st) as [Hs _]. rewrite Hs.
      exact (setSpeedSps_consistent _ (with_dir (steps <? 0) st) Hp).
Qed.

(** X5. In every state reached from power-on through ticks and command
    lines, the stored speed is within 1..40000 steps/s, the step interval
    is exactly 1000000 divided by it (between 25 and 1000000 us), and the
    interval leaves room for the pulse: [pulseWidthUs + 4 <=
    stepIntervalUs]. *)
Theorem speed_fields_invariant :
  forall inputs : list Input,
    let st := state_of (exec inputs run_init) in
    1 <= lastSps st <= 40000
    /\ stepIntervalUs st = 1000000 / lastSps st
    /\ pulseWidthUs st + 4 <= stepIntervalUs st
    /\ 25 <= stepIntervalUs st <= 1000000.
Proof.
  intros inputs st.
  assert (Hsc : speed_consistent st).
  { subst st.
    assert (H0 : speed_consistent run_init).
    { unfold speed_consistent. cbn. repeat split; lia. }
    revert H0. generalize run_init.
    induction inputs as [|i rest IH]; intros s0 H0; [exact H0|].
    destruct (exec_cons i rest s0) as [Hs _]. rewrite Hs.
    apply IH. apply step_input_speed. exact H0. }
  destruct (speed_consistent_bounds st Hsc) as [B1 B2].
  destruct Hsc as (Hl & Hi & _). repeat split; lia.
Qed.

(** ** Pulse width and step spacing in true time *)

Lemma u32_add_l (a b : Z) : u32 (u32 a + b) = u32 (a + b).
Proof. unfold u32, to_unsigned. apply Zplus_mod_idemp_l. Qed.

(** A tick before a deadline, and less than half the counter range
    before it, does not reach it. *)
Lemma early_tick (lo T' Dt : Z) :
  lo <= T' < Dt -> Dt - lo <= 2 ^ 31 ->
  deadline_reached (u32 T') (u32 Dt) = false.
Proof.
  intros H1 H2. rewrite deadline_reached_true_time by lia.
  apply Z.leb_gt. lia.
Qed.

Lemma pulse_held (lo Dt : Z) (xs : list Timed) :
  Dt - lo <= 2 ^ 31 ->
  Forall (tick_in lo Dt) xs ->
  forall st : Runner,
    stepHigh st = true -> stepHighUntilUs st = u32 Dt ->
    step_levels (events_of (exec (map untimed xs) st)) = []
    /\ stepHigh (state_of (exec (map untimed xs) st)) = true
    /\ stepHighUntilUs (state_of (exec (map untimed xs) st)) = u32 Dt.
Proof.
  intros Hspan Hall. induction Hall as [|x xs Hx _ IH]; intros st Hh Hu.
  - cbn. auto.
  - cbn [map]. destruct (exec_cons (untimed x) (map untimed xs) st) as [Hs He].
    rewrite Hs, He, step_levels_app.
    assert (Hstep : step_levels (events_of (step_input (untimed x) st)) = []
                    /\ stepHigh (state_of (step_input (untimed x) st)) = true
                    /\ stepHighUntilUs (state_of (step_input (untimed x) st))
                       = u32 Dt).
    { destruct x as [T'|s]; cbn [untimed step_input].
      - cbn in Hx. rewrite serviceStepper_eq, Hh, Hu.
        rewrite (early_tick lo T' Dt Hx Hspan). cbn. auto.
      - destruct (handleLine_frame s st) as (F1 & F2 & F3 & _).
        rewrite F1, F2, F3. auto. }
    destruct Hstep as (L0 & H0 & U0).
    destruct (IH _ H0 U0) as (L1 & H1 & U1).
    rewrite L0, L1. auto.
Qed.

Lemma no_early_step (lo Dt : Z) (xs : list Timed) :
  Dt - lo <= 2 ^ 31 ->
  Forall (tick_in lo Dt) xs ->
  forall st : Runner,
    nextStepUs st = u32 Dt ->
    rising_edges (events_of (exec (map untimed xs) st)) = 0%nat
    /\ nextStepUs (state_of (exec (map untimed xs) st)) = u32 Dt.
Proof.
  intros Hspan Hall. induction Hall as [|x xs Hx _ IH]; intros st Hn.
  - cbn. auto.
  - cbn [map]. destruct (exec_cons (untimed x) (map untimed xs) st) as [Hs He].
    rewrite Hs, He, rising_edges_app.
    assert (Hstep : rising_edges (events_of (step_input (untimed x) st)) = 0%nat
                    /\ nextStepUs (state_of (step_input (untimed x) st))
                       = u32 Dt).
    { destruct x as [T'|s]; cbn [untimed step_input].
      - cbn in Hx. rewrite serviceStepper_eq, Hn.
        rewrite (early_tick lo T' Dt Hx Hspan).
        destruct (stepHigh st), (shouldStep st),
          (deadline_reached (u32 T') (stepHighUntilUs st)); cbn; auto.
      - destruct (handleLine_frame s st) as (_ & _ & _ & F4 & _).
        rewrite F4. split; [apply line_no_rising | exact Hn]. }
    destruct Hstep as (R0 & N0).
    destruct (IH _ N0) as (R1 & N1).
    rewrite R0, R1. auto.
Qed.

(** X6. Pulse width: once a tick at true time [T] has written a rising
    edge, the step output stays high through every tick and command line
    before [T + pulseWidthUs], and the first tick at or after that time
    (within half the counter range) writes the falling edge. *)
Theorem pulse_width_honoured :
  forall (st : Runner) (T T' : Z) (xs : list Timed),
    stepHigh st = false -> shouldStep st = true ->
    deadline_reached (u32 T) (nextStepUs st) = true ->
    0 <= pulseWidthUs st < 2 ^ 31 ->
    Forall (tick_in T (T + pulseWidthUs st)) xs ->
    T + pulseWidthUs st <= T' < T + 2 ^ 31 ->
    let s1 := state_of (serviceStepper (u32 T) st) in
    let s2 := state_of (exec (map untimed xs) s1) in
    events_of (serviceStepper (u32 T) st) = [DigitalWrite STEP_PIN HIGH]
    /\ step_levels (events_of (exec (map untimed xs) s1)) = []
    /\ stepHigh s2 = true
    /\ events_of (serviceStepper (u32 T') s2) = [DigitalWrite STEP_PIN LOW]
    /\ stepHigh (state_of (serviceStepper (u32 T') s2)) = false.
Proof.
  intros st T T' xs Hh Hgo Hr Hpw Hall HT' s1 s2.
  assert (E1 : serviceStepper (u32 T) st
               = (tt, fired (u32 T) st, [DigitalWrite STEP_PIN HIGH])).
  { rewrite serviceStepper_eq, Hh, Hgo, Hr. reflexivity. }
  assert (Hs1 : s1 = fired (u32 T) st) by (subst s1; rewrite E1; reflexivity).
  destruct (pulse_held T (T + pulseWidthUs st) xs ltac:(lia) Hall s1)
    as (L & H2 & U2).
  { rewrite Hs1. reflexivity. }
  { rewrite Hs1. cbn. apply u32_add_l. }
  fold s2 in H2, U2.
  assert (Hrel : deadline_reached (u32 T') (stepHighUntilUs s2) = true).
  { rewrite U2, deadline_reached_true_time by lia. apply Z.leb_le. lia. }
  split; [rewrite E1; reflexivity|]. split; [exact L|]. split; [exact H2|].
  rewrite serviceStepper_eq, H2, Hrel. split; reflexivity.
Qed.

Lemma pulse_width_honoured_witness :
  let st := with_enabled true (with_continuous true run_init) in
  let s1 := state_of (serviceStepper (u32 1000) st) in
  let s2 := state_of (exec (map untimed
                 [TickAt 1001; Command "run 900"; TickAt 1002]) s1) in
  stepHigh s2 = true
  /\ events_of (serviceStepper (u32 1003) s2) = [DigitalWrite STEP_PIN LOW].
Proof.
  destruct (pulse_width_honoured
              (with_enabled true (with_continuous true run_init)) 1000 1003
              [TickAt 1001; Command "run 900"; TickAt 1002]
              eq_refl eq_refl eq_refl)
    as (_ & _ & H3 & H4 & _).
  - cbn. lia.
  - repeat constructor; cbn; lia.
  - cbn. lia.
  - intros st s1 s2. split; [exact H3 | exact H4].
Defined.

(** X7. Step spacing: after a rising edge at true time [T], no further
    rising edge is written before [T + stepIntervalUs] (the interval in
    force when the edge fired), whatever ticks and command lines come in
    between, speed changes included. *)
Theorem step_spacing :
  forall (st : Runner) (T : Z) (xs : list Timed),
    stepHigh st = false -> shouldStep st = true ->
    deadline_reached (u32 T) (nextStepUs st) = true ->
    0 <= stepIntervalUs st <= 2 ^ 31 ->
    Forall (tick_in T (T + stepIntervalUs st)) xs ->
    let s1 := state_of (serviceStepper (u32 T) st) in
    events_of (serviceStepper (u32 T) st) = [DigitalWrite STEP_PIN HIGH]
    /\ rising_edges (events_of (exec (map untimed xs) s1)) = 0%nat.
Proof.
  intros st T xs Hh Hgo Hr Hiv Hall s1.
  assert (E1 : serviceStepper (u32 T) st
               = (tt, fired (u32 T) st, [DigitalWrite STEP_PIN HIGH])).
  { rewrite serviceStepper_eq, Hh, Hgo, Hr. reflexivity. }
  split; [rewrite E1; reflexivity|].
  apply (no_early_step T (T + stepIntervalUs st) xs ltac:(lia) Hall s1).
  subst s1. rewrite E1. cbn. apply u32_add_l.
Qed.

Lemma step_spacing_witness :
  let st := with_enabled true (with_continuous true run_init) in
  let s1 := state_of (serviceStepper (u32 1000) st) in
  rising_edges (events_of (exec (map untimed
      [TickAt 1003; Command "run 40000"; TickAt 1500; TickAt 2999]) s1))
  = 0%nat.
Proof.
  destruct (step_spacing
              (with_enabled true (with_continuous true run_init)) 1000
              [TickAt 1003; Command "run 40000"; TickAt 1500; TickAt 2999]
              eq_refl eq_refl eq_refl)
    as (_ & H).
  - cbn. lia.
  - repeat constructor; cbn; lia.
  - intros st s1. exact H.
Defined.

(** ** Continuous runs keep stepping *)

Lemma ticks_mode (l : list Z) :
  forall st : Runner,
    continuous (state_of (ticks l st)) = continuous st
    /\ enabled (state_of (ticks l st)) = enabled st.
Proof.
  induction l as [|now l IH]; intros st; [split; reflexivity|].
  destruct (ticks_cons now l st) as [Hs _]. rewrite Hs.
  destruct (IH (state_of (serviceStepper now st))) as [I1 I2].
  destruct (tick_mode now st) as [M1 M2].
  rewrite I1, I2, M1, M2. split; reflexivity.
Qed.

(** X8. A continuous run never stalls: with the motor enabled and the
    mode continuous, under a free-running clock, every number of rising
    edges is reached after some number of ticks. *)
Theorem continuous_keeps_stepping :
  forall (t : nat -> Z) (st : Runner) (n i : nat),
    (forall k : nat, 0 < t (S k) - t k <= 2 ^ 31) ->
    enabled st = true -> continuous st = true ->
    exists K : nat,
      rising_edges (events_of (ticks (nows t i K) st)) = n.
Proof.
  intros t st n i gap Hen Hc.
  induction n as [|n IH]; [exists 0%nat; reflexivity|].
  destruct IH as (K & HK).
  set (sK := state_of (ticks (nows t i K) st)) in *.
  destruct (ticks_mode (nows t i K) st) as [Mc Me]. fold sK in Mc, Me.
  assert (Hidle : forall (s : Runner) (i0 : nat),
             stepHigh s = false -> enabled s = true -> continuous s = true ->
             exists j : nat,
               events_of (ticks (nows t i0 (S j)) s)
               = [DigitalWrite STEP_PIN HIGH]).
  { intros s i0 Hh He Hcs.
    destruct (step_fires t gap s i0 Hh) as (j & _ & Hev).
    { unfold shouldStep. rewrite He, Hcs. reflexivity. }
    exists j. exact Hev. }
  destruct (stepHigh sK) eqn:Hh.
  - destruct (pulse_falls t gap sK (i + K)%nat Hh) as (j1 & Hs1 & He1).
    destruct (Hidle (with_stepHigh false sK) (i + K + S j1)%nat)
      as (j2 & He2); [reflexivity | cbn; congruence | cbn; congruence |].
    exists (K + (S j1 + S j2))%nat.
    rewrite nows_split.
    destruct (ticks_app (nows t i K) (nows t (i + K) (S j1 + S j2)) st)
      as [_ Ae].
    rewrite Ae, rising_edges_app, HK. fold sK.
    rewrite nows_split.
    destruct (ticks_app (nows t (i + K) (S j1))
                        (nows t (i + K + S j1) (S j2)) sK) as [_ Be].
    rewrite Be, rising_edges_app, He1, Hs1, He2. cbn. lia.
  - destruct (Hidle sK (i + K)%nat Hh) as (j & He2); [congruence..|].
    exists (K + S j)%nat.
    rewrite nows_split.
    destruct (ticks_app (nows t i K) (nows t (i + K) (S j)) st) as [_ Ae].
    rewrite Ae, rising_edges_app, HK. fold sK. rewrite He2. cbn. lia.
Qed.

Lemma continuous_keeps_stepping_witness :
  exists K : nat,
    rising_edges (events_of
      (ticks (nows (fun i => 700 * Z.of_nat i) 0 K)
             (state_of (do_run (-250) run_init)))) = 6%nat.
Proof.
  assert (Hgap : forall k : nat,
             0 < 700 * Z.of_nat (S k) - 700 * Z.of_nat k <= 2 ^ 31).
  { intros k. change (2 ^ 31) with 2147483648. lia. }
  exact (continuous_keeps_stepping (fun i => 700 * Z.of_nat i)
           (state_of (do_run (-250) run_init)) 6 0 Hgap eq_refl eq_refl).
Defined.

(** ** The serial line buffer *)

Lemma str_length_snoc (s : string) (c : ascii) :
  String.length (s ++ String c EmptyString) = S (String.length s).
Proof. induction s as [|a s IH]; cbn; [reflexivity | rewrite IH; reflexivity]. Qed.

Lemma str_append_nil (s : string) : (s ++ EmptyString)%string = s.
Proof. induction s as [|a s IH]; cbn; [reflexivity | rewrite IH; reflexivity]. Qed.

Lemma str_append_snoc (s r : string) (c : ascii) :
  ((s ++ String c EmptyString) ++ r)%string = (s ++ String c r)%string.
Proof. induction s as [|a s IH]; cbn; [reflexivity | rewrite IH; reflexivity]. Qed.

Lemma str_take_all (n : nat) (s : string) :
  (String.length s <= n)%nat -> str_take n s = s.
Proof.
  revert n; induction s as [|a s IH]; intros n H.
  - destruct n; reflexivity.
  - destruct n as [|n]; cbn in *; [lia|]. rewrite IH by lia. reflexivity.
Qed.

Lemma str_take_prefix (s r : string) :
  str_take (String.length s) (s ++ r) = s.
Proof.
  induction s as [|a s IH]; cbn.
  - destruct r; reflexivity.
  - rewrite IH. reflexivity.
Qed.

Lemma serviceSerial_app (xs ys : list ascii) :
  forall (buf : string) (st : Runner),
    serviceSerial (xs ++ ys) buf st
    = (let '(b1, s1, e1) := serviceSerial xs buf st in
       let '(b2, s2, e2) := serviceSerial ys b1 s1 in
       (b2, s2, e1 ++ e2)).
Proof.
  induction xs as [|c xs IH]; intros buf st.
  - cbn. destruct (serviceSerial ys buf st) as [[b2 s2] e2]. reflexivity.
  - cbn [app serviceSerial].
    destruct (c =? "013")%char; [apply IH|].
    destruct (c =? "010")%char.
    + destruct (handleLine (c_str buf) st) as [[u s0] e0].
      rewrite IH.
      destruct (serviceSerial xs EmptyString s0) as [[b1 s1] e1].
      destruct (serviceSerial ys b1 s1) as [[b2 s2] e2].
      rewrite app_assoc. reflexivity.
    + destruct (String.length buf <? LINEBUF_SIZE - 1)%nat; apply IH.
Qed.

(** X9. Serial input may arrive in any pieces: reading [xs] and then, in
    a later call, [ys] leaves the same buffer and state and produces the
    same output as reading [xs ++ ys] at once; and the line buffer never
    holds more than 95 characters, so the terminating NUL always fits in
    its 96 bytes. *)
Theorem serial_chunks_compose :
  forall (xs ys : list ascii) (buf : string) (st : Runner),
    serviceSerial (xs ++ ys) buf st
    = (let '(b1, s1, e1) := serviceSerial xs buf st in
       let '(b2, s2, e2) := serviceSerial ys b1 s1 in
       (b2, s2, e1 ++ e2))
    /\ ((String.length buf <= 95)%nat ->
        (String.length (fst (fst (serviceSerial xs buf st))) <= 95)%nat).
Proof.
  intros xs ys buf st. split; [apply serviceSerial_app|].
  revert buf st. induction xs as [|c xs IH]; intros buf st Hb; [exact Hb|].
  cbn [serviceSerial].
  destruct (c =? "013")%char; [apply IH; exact Hb|].
  destruct (c =? "010")%char.
  - destruct (handleLine (c_str buf) st) as [[u s0] e0].
    specialize (IH EmptyString s0).
    destruct (serviceSerial xs EmptyString s0) as [[b1 s1] e1].
    cbn in *. apply IH. lia.
  - destruct (Nat.ltb_spec (String.length buf) (LINEBUF_SIZE - 1)) as [Hlt|Hge].
    + apply IH. rewrite str_length_snoc. cbn in Hlt. lia.
    + apply IH. exact Hb.
Qed.

Lemma serial_chunks_compose_witness :
  serviceSerial (list_ascii_of_string ("mo" ++ "ve 7" ++ nl)) EmptyString
                run_init
  = (let '(b1, s1, e1) :=
       serviceSerial (list_ascii_of_string "mo") EmptyString run_init in
     let '(b2, s2, e2) :=
       serviceSerial (list_ascii_of_string ("ve 7" ++ nl)) b1 s1 in
     (b2, s2, e1 ++ e2))
  /\ (String.length (fst (fst (serviceSerial (list_ascii_of_string "mo")
                                             EmptyString run_init))) <= 95)%nat.
Proof.
  destruct (serial_chunks_compose (list_ascii_of_string "mo")
              (list_ascii_of_string ("ve 7" ++ nl)) EmptyString run_init)
    as [H1 H2].
  split; [exact H1 | apply H2; cbn; lia].
Defined.

Lemma serviceSerial_accumulate (cs rest : list ascii) :
  forall (buf : string) (st : Runner),
    (String.length buf <= 95)%nat ->
    forallb (fun c => negb (is_CR c) && negb (is_LF c)) cs = true ->
    serviceSerial (cs ++ rest) buf st
    = serviceSerial rest (str_take 95 (buf ++ string_of_list_ascii cs)) st.
Proof.
  induction cs as [|c cs IH]; intros buf st Hb Hcs.
  - cbn [app string_of_list_ascii].
    rewrite str_append_nil, str_take_all by exact Hb. reflexivity.
  - cbn [forallb] in Hcs. apply andb_true_iff in Hcs. destruct Hcs as [Hc Hcs].
    apply andb_true_iff in Hc. destruct Hc as [Hcr Hlf].
    apply negb_true_iff in Hcr. apply negb_true_iff in Hlf.
    unfold is_CR in Hcr. unfold is_LF in Hlf.
    cbn [app serviceSerial string_of_list_ascii]. rewrite Hcr, Hlf.
    destruct (Nat.ltb_spec (String.length buf) (LINEBUF_SIZE - 1)) as [Hlt|Hge].
    + rewrite IH; [|rewrite str_length_snoc; cbn in Hlt; lia | exact Hcs].
      rewrite str_append_snoc. reflexivity.
    + rewrite IH by assumption.
      assert (Hlen : String.length buf = 95%nat) by (cbn in Hge; lia).
      rewrite <- Hlen, !str_take_prefix. reflexivity.
Qed.

Lemma serviceSerial_skips_CR (input : list ascii) :
  forall (buf : string) (st : Runner),
    serviceSerial (filter (fun c => negb (is_CR c)) input) buf st
    = serviceSerial input buf st.
Proof.
  induction input as [|c input IH]; intros buf st; [reflexivity|].
  cbn [filter serviceSerial]. unfold is_CR at 1.
  destruct (c =? "013")%char eqn:Hcr; cbn [negb]; [apply IH|].
  cbn [serviceSerial]. rewrite Hcr.
  destruct (c =? "010")%char.
  - destruct (handleLine (c_str buf) st) as [[u s0] e0]. rewrite IH.
    reflexivity.
  - destruct (String.length buf <? LINEBUF_SIZE - 1)%nat; apply IH.
Qed.

(** X10. A line arriving on an empty buffer: the characters before the
    line feed, cut to the first 95 and then at the first NUL, are what
    [handleLine] receives, the buffer is empty again afterwards; and
    carriage returns anywhere in the input are dropped, so CR LF line
    ends behave as LF. *)
Theorem serial_line_dispatch :
  forall (cs input : list ascii) (buf : string) (st : Runner),
    forallb (fun c => negb (is_CR c) && negb (is_LF c)) cs = true ->
    serviceSerial (cs ++ ["010"%char]) EmptyString st
    = (let '(_, s1, e1) :=
         handleLine (c_str (str_take 95 (string_of_list_ascii cs))) st in
       (EmptyString, s1, e1))
    /\ serviceSerial (filter (fun c => negb (is_CR c)) input) buf st
       = serviceSerial input buf st.
Proof.
  intros cs input buf st Hcs. split; [|apply serviceSerial_skips_CR].
  rewrite serviceSerial_accumulate; [|cbn; lia | exact Hcs].
  cbn [append serviceSerial].
  change (("010" =? "013")%char) with false.
  change (("010" =? "010")%char) with true. cbv iota.
  destruct (handleLine (c_str (str_take 95 (string_of_list_ascii cs))) st)
    as [[u s1] e1].
  rewrite app_nil_r. reflexivity.
Qed.

Lemma serial_line_dispatch_witness :
  serviceSerial (list_ascii_of_string "stop" ++ ["010"%char]) EmptyString
                (with_remaining 9 run_init)
  = (EmptyString, with_remaining 0 (with_continuous false
                    (with_remaining 9 run_init)),
     [SerialPrintln "stopped"]).
Proof.
  destruct (serial_line_dispatch (list_ascii_of_string "stop") []
              EmptyString (with_remaining 9 run_init) eq_refl) as [H _].
  rewrite H. reflexivity.
Defined.

(** ** Reports of the host loop *)

Lemma split_delim_pieces (s : string) :
  Forall (fun t => forallb (fun c => negb (is_delim c))
                           (list_ascii_of_string t) = true)
         (split_delim s).
Proof.
  induction s as [|c s IH]; cbn [split_delim].
  - repeat constructor.
  - destruct (is_delim c) eqn:Hc.
    + constructor; [reflexivity | exact IH].
    + destruct (split_delim s) as [|t ts].
      * repeat constructor. cbn. rewrite Hc. reflexivity.
      * inversion IH as [|? ? Ht Hts]; subst.
        constructor; [|exact Hts]. cbn. rewrite Hc, Ht. reflexivity.
Qed.

Lemma token_not_move_done (s cmd : string) (args : list string) :
  tokens s = cmd :: args -> (cmd =? "move done")%string = false.
Proof.
  intros Ht. apply String.eqb_neq. intros ->.
  assert (Hin : In "move done" (split_delim s)).
  { assert (H : In "move done" (tokens s)) by (rewrite Ht; left; reflexivity).
    unfold tokens in H. apply filter_In in H. exact (proj1 H). }
  pose proof (split_delim_pieces s) as Hall.
  rewrite Forall_forall in Hall. specialize (Hall _ Hin). discriminate Hall.
Qed.

Lemma move_done_reports_app (xs ys : list Event) :
  move_done_reports (xs ++ ys)
  = (move_done_reports xs + move_done_reports ys)%nat.
Proof.
  unfold move_done_reports. rewrite filter_app, length_app. reflexivity.
Qed.

Lemma handleLine_no_report (s : string) (st : Runner) :
  move_done_reports (events_of (handleLine s st)) = 0%nat.
Proof.
  unfold handleLine.
  destruct (tokens s) as [|cmd args] eqn:Ht; [reflexivity|].
  pose proof (token_not_move_done s cmd args Ht) as Hcmd.
  cbv zeta.
  destruct (nth_error args 0) as [a|]; destruct (nth_error args 1) as [b|];
    split_ifs; run_M; split_ifs; cbn; rewrite ?Hcmd; reflexivity.
Qed.

Lemma tick_no_report (now : Z) (st : Runner) :
  move_done_reports (events_of (serviceStepper now st)) = 0%nat.
Proof.
  rewrite serviceStepper_eq.
  destruct (stepHigh st), (shouldStep st),
    (deadline_reached now (stepHighUntilUs st)),
    (deadline_reached now (nextStepUs st)); reflexivity.
Qed.

Lemma serviceSerial_no_report (input : list ascii) :
  forall (buf : string) (st : Runner),
    move_done_reports (snd (serviceSerial input buf st)) = 0%nat.
Proof.
  induction input as [|c input IH]; intros buf st; [reflexivity|].
  cbn [serviceSerial].
  destruct (c =? "013")%char; [apply IH|].
  destruct (c =? "010")%char.
  - pose proof (handleLine_no_report (c_str buf) st) as Hl.
    destruct (handleLine (c_str buf) st) as [[u s0] e0].
    specialize (IH EmptyString s0).
    destruct (serviceSerial input EmptyString s0) as [[b1 s1] e1].
    cbn [snd events_of] in *. unfold events_of in Hl. cbn [snd] in Hl.
    rewrite move_done_reports_app, Hl, IH. reflexivity.
  - destruct (String.length buf <? LINEBUF_SIZE - 1)%nat; apply IH.
Qed.

(** The number of reports of one iteration. *)
Lemma loop_reports (input : list ascii) (now : Z) (sk : Sketch) :
  move_done_reports (snd (loop input now sk))
  = (if negb (continuous (run (fst (loop input now sk))))
        && negb (lastRemaining sk =? 0)
        && (remaining (run (fst (loop input now sk))) =? 0)
     then 1%nat else 0%nat)
  /\ lastRemaining (fst (loop input now sk))
     = remaining (run (fst (loop input now sk))).
Proof.
  unfold loop.
  pose proof (serviceSerial_no_report input (lineBuf sk) (run sk)) as Hs.
  destruct (serviceSerial input (lineBuf sk) (run sk)) as [[buf1 st1] e1].
  pose proof (tick_no_report now st1) as Ht.
  destruct (serviceStepper now st1) as [[u st2] e2].
  unfold events_of in Ht.
  cbn [fst snd run lastRemaining] in *.
  rewrite !move_done_reports_app, Hs, Ht.
  split; [|reflexivity].
  destruct (negb (continuous st2) && negb (lastRemaining sk =? 0)
            && (remaining st2 =? 0)); reflexivity.
Qed.

(** X11. The "move done" report is edge-triggered: an iteration of [loop]
    prints it at most once, never while the mode is continuous or steps
    remain, and never in the iteration that follows one that printed it,
    whatever that iteration reads and does. *)
Theorem move_done_edge_triggered :
  forall (input input' : list ascii) (now now' : Z) (sk : Sketch),
    let sk1 := fst (loop input now sk) in
    (move_done_reports (snd (loop input now sk)) <= 1)%nat
    /\ (continuous (run sk1) = true ->
        move_done_reports (snd (loop input now sk)) = 0%nat)
    /\ (remaining (run sk1) <> 0 ->
        move_done_reports (snd (loop input now sk)) = 0%nat)
    /\ (move_done_reports (snd (loop input now sk)) = 1%nat ->
        move_done_reports (snd (loop input' now' sk1)) = 0%nat).
Proof.
  intros input input' now now' sk sk1.
  destruct (loop_reports input now sk) as [Hr Hl]. fold sk1 in Hr, Hl.
  destruct (loop_reports input' now' sk1) as [Hr' _].
  rewrite Hr. repeat split.
  - destruct (negb (continuous (run sk1)) && negb (lastRemaining sk =? 0)
              && (remaining (run sk1) =? 0)); lia.
  - intros Hc. rewrite Hc. reflexivity.
  - intros Hne. apply Z.eqb_neq in Hne. rewrite Hne, andb_false_r. reflexivity.
  - intros H1. rewrite Hr', Hl.
    destruct (remaining (run sk1) =? 0) eqn:Hz.
    + rewrite andb_false_r. reflexivity.
    + rewrite andb_false_r in H1. discriminate.
Qed.

Lemma move_done_edge_triggered_witness :
  let sk := {| run := with_enabled true (with_remaining 1 run_init);
               lineBuf := EmptyString; lastRemaining := 1 |} in
  move_done_reports (snd (loop [] 50 sk)) = 1%nat
  /\ move_done_reports (snd (loop [] 60 (fst (loop [] 50 sk)))) = 0%nat.
Proof.
  intros sk.
  assert (H1 : move_done_reports (snd (loop [] 50 sk)) = 1%nat)
    by reflexivity.
  destruct (move_done_edge_triggered [] [] 50 60 sk) as (_ & _ & _ & H).
  split; [exact H1 | exact (H H1)].
Defined.

Lemma loops_cons (input : list ascii) (now : Z)
      (rest : list (list ascii * Z)) (sk : Sketch) :
  fst (loops ((input, now) :: rest) sk)
  = fst (loops rest (fst (loop input now sk)))
  /\ snd (loops ((input, now) :: rest) sk)
     = snd (loop input now sk) ++ snd (loops rest (fst (loop input now sk))).
Proof.
  cbn [loops]. destruct (loop input now sk) as [sk1 e1]. cbn [fst snd].
  destruct (loops rest sk1) as [sk2 e2]. split; reflexivity.
Qed.

Lemma loop_idle_run (now : Z) (sk : Sketch) :
  run (fst (loop [] now sk)) = state_of (serviceStepper now (run sk)).
Proof.
  unfold loop. cbn [serviceSerial].
  destruct (serviceStepper now (run sk)) as [[u st2] e2]. reflexivity.
Qed.

Lemma sampled_move_reports (iters : list (list ascii * Z)) :
  no_serial iters ->
  forall sk : Sketch,
    continuous (run sk) = false ->
    0 <= remaining (run sk) ->
    lastRemaining sk = remaining (run sk) ->
    move_done_reports (snd (loops iters sk))
    = (if (0 <? remaining (run sk))
          && (remaining (run (fst (loops iters sk))) =? 0)
       then 1%nat else 0%nat)
    /\ 0 <= remaining (run (fst (loops iters sk))) <= remaining (run sk).
Proof.
  induction 1 as [|[input now] rest Hin _ IH]; intros sk Hc Hr Hl.
  - cbn [loops fst snd]. split; [|lia].
    destruct (Z.ltb_spec 0 (remaining (run sk)));
      destruct (Z.eqb_spec (remaining (run sk)) 0); cbn; try reflexivity; lia.
  - cbn [fst] in Hin. subst input.
    destruct (loops_cons [] now rest sk) as [Lf Ls]. rewrite Lf, Ls.
    rewrite move_done_reports_app.
    destruct (loop_reports [] now sk) as [Rr Rl].
    pose proof (loop_idle_run now sk) as Hrun.
    set (sk1 := fst (loop [] now sk)) in *.
    destruct (tick_mode now (run sk)) as [Mc _].
    assert (Hc1 : continuous (run sk1) = false) by (rewrite Hrun; congruence).
    assert (Hrem : remaining (run sk1) = remaining (run sk)
                   \/ (remaining (run sk1) = remaining (run sk) - 1
                       /\ 0 < remaining (run sk))).
    { rewrite Hrun.
      destruct (tick_remaining now (run sk))
        as [(Hd & _ & _ & Hp) | (Hd & _)]; auto. }
    destruct (IH sk1 Hc1) as [IHr IHb]; [lia | exact Rl |].
    rewrite Rr, IHr, Hc1, Hl. cbn [negb andb].
    split; [|lia].
    destruct (Z.eqb_spec (remaining (run sk)) 0) as [E0|N0];
      destruct (Z.eqb_spec (remaining (run sk1)) 0) as [E1|N1];
      destruct (Z.eqb_spec (remaining (run (fst (loops rest sk1)))) 0)
        as [E2|N2];
      destruct (Z.ltb_spec 0 (remaining (run sk)));
      destruct (Z.ltb_spec 0 (remaining (run sk1)));
      cbn; try reflexivity; lia.
Qed.

(** X12. A finite move that is under way when [loop] samples it (not
    continuous, [lastRemaining] equal to the positive [remaining]) and
    then runs through iterations with no serial input is reported exactly
    once if the iterations bring [remaining] to 0 and not at all
    otherwise; [remaining] only goes down and never below 0. *)
Theorem sampled_move_reported_once :
  forall (iters : list (list ascii * Z)) (sk : Sketch),
    no_serial iters ->
    continuous (run sk) = false ->
    0 < remaining (run sk) ->
    lastRemaining sk = remaining (run sk) ->
    move_done_reports (snd (loops iters sk))
    = (if remaining (run (fst (loops iters sk))) =? 0 then 1%nat else 0%nat)
    /\ 0 <= remaining (run (fst (loops iters sk))) <= remaining (run sk).
Proof.
  intros iters sk Hno Hc Hr Hl.
  destruct (sampled_move_reports iters Hno sk Hc ltac:(lia) Hl) as [H1 H2].
  split; [|exact H2]. rewrite H1.
  assert (Hpos : (0 <? remaining (run sk)) = true) by (apply Z.ltb_lt; lia).
  rewrite Hpos. reflexivity.
Qed.

Lemma sampled_move_reported_once_witness :
  let sk := {| run := with_enabled true (with_remaining 2 run_init);
               lineBuf := EmptyString; lastRemaining := 2 |} in
  move_done_reports
    (snd (loops [([], 10); ([], 13); ([], 2010); ([], 2013); ([], 4010)] sk))
  = 1%nat.
Proof.
  intros sk.
  destruct (sampled_move_reported_once
              [([], 10); ([], 13); ([], 2010); ([], 2013); ([], 4010)] sk)
    as [H _].
  - repeat constructor.
  - reflexivity.
  - cbn. lia.
  - reflexivity.
  - rewrite H. reflexivity.
Defined.

(** ** The host loop keeps the pulse discipline *)

Lemma serviceSerial_frame (input : list ascii) :
  forall (buf : string) (st : Runner),
    step_levels (snd (serviceSerial input buf st)) = []
    /\ stepHigh (snd (fst (serviceSerial input buf st))) = stepHigh st.
Proof.
  induction input as [|c input IH]; intros buf st; [split; reflexivity|].
  cbn [serviceSerial].
  destruct (c =? "013")%char; [apply IH|].
  destruct (c =? "010")%char.
  - destruct (handleLine_frame (c_str buf) st) as (F1 & F2 & _).
    unfold events_of, state_of in F1, F2.
    destruct (handleLine (c_str buf) st) as [[u s0] e0].
    specialize (IH EmptyString s0).
    destruct (serviceSerial input EmptyString s0) as [[b1 s1] e1].
    cbn [fst snd] in *. destruct IH as [I1 I2].
    rewrite step_levels_app, F1, I1, I2, F2. split; reflexivity.
  - destruct (String.length buf <? LINEBUF_SIZE - 1)%nat; apply IH.
Qed.

Lemma loop_levels (input : list ascii) (now : Z) (sk : Sketch) :
  (step_levels (snd (loop input now sk)) = []
   /\ stepHigh (run (fst (loop input now sk))) = stepHigh (run sk))
  \/ (step_levels (snd (loop input now sk)) = [negb (stepHigh (run sk))]
      /\ stepHigh (run (fst (loop input now sk))) = negb (stepHigh (run sk))).
Proof.
  unfold loop.
  destruct (serviceSerial_frame input (lineBuf sk) (run sk)) as [S1 S2].
  destruct (serviceSerial input (lineBuf sk) (run sk)) as [[buf1 st1] e1].
  cbn [fst snd] in S1, S2.
  pose proof (step_input_levels (Tick now) st1) as Ht.
  cbn [step_input] in Ht. unfold events_of, state_of in Ht.
  destruct (serviceStepper now st1) as [[u st2] e2].
  cbn [fst snd run] in *. rewrite !step_levels_app, S1.
  assert (E3 : forall b : bool,
             step_levels (if b then [SerialPrintln "move done"] else []) = [])
    by (intros []; reflexivity).
  rewrite E3, app_nil_r. cbn [app]. rewrite <- S2. exact Ht.
Qed.

(** X13. No pulse overlap in the host loop: over any iterations of
    [loop], with any serial input and any clock readings, the writes to
    the step output strictly alternate starting from [stepHigh]. *)
Theorem loop_pulses_alternate :
  forall (iters : list (list ascii * Z)) (sk : Sketch),
    pulses_alternate (stepHigh (run sk))
                     (step_levels (snd (loops iters sk))) = true.
Proof.
  induction iters as [|[input now] rest IH]; intros sk; [reflexivity|].
  destruct (loops_cons input now rest sk) as [_ Ls].
  rewrite Ls, step_levels_app.
  specialize (IH (fst (loop input now sk))).
  destruct (loop_levels input now sk) as [[Hl Hh] | [Hl Hh]];
    rewrite Hl; rewrite Hh in IH.
  - exact IH.
  - cbn [app pulses_alternate]. rewrite IH.
    destruct (stepHigh (run sk)); reflexivity.
Qed.

(** ** Register values in hexadecimal *)

Lemma hex_digit_roundtrip (d : Z) :
  0 <= d < 16 -> hex_digit_value (hex_char d) = Some d.
Proof.
  intros H.
  assert (Hd : d = 0 \/ d = 1 \/ d = 2 \/ d = 3 \/ d = 4 \/ d = 5 \/ d = 6
               \/ d = 7 \/ d = 8 \/ d = 9 \/ d = 10 \/ d = 11 \/ d = 12
               \/ d = 13 \/ d = 14 \/ d = 15) by lia.
  repeat (destruct Hd as [-> | Hd]; [reflexivity|]). subst d. reflexivity.
Qed.

Lemma pow16_pos (k : nat) : 0 < pow16 k.
Proof. induction k as [|k IH]; cbn [pow16]; lia. Qed.

(** The digits [printNumber16] puts in front of [acc]: as many as the
    magnitude of [n] needs, and they read back as [n]. *)
Lemma printNumber16_digits (k : nat) :
  forall (fuel : nat) (n : Z) (acc : string),
    (k < fuel)%nat ->
    0 <= n < pow16 (S k) ->
    (pow16 k <= n \/ k = 0%nat) ->
    exists ds : string,
      printNumber16 fuel n acc = (ds ++ acc)%string
      /\ String.length ds = S k
      /\ forall (a : Z) (r : string),
           hex_value a (ds ++ r) = hex_value (a * pow16 (S k) + n) r.
Proof.
  induction k as [|k IH]; intros fuel n acc Hf Hn Hlo.
  - destruct fuel as [|fuel]; [lia|]. cbn [pow16] in Hn.
    exists (String (hex_char n) EmptyString).
    cbn [printNumber16]. rewrite Z.div_small, Z.mod_small by lia.
    cbn [Z.eqb]. split; [reflexivity|]. split; [reflexivity|].
    intros a r. cbn [append hex_value pow16].
    rewrite hex_digit_roundtrip by lia. f_equal. lia.
  - destruct fuel as [|fuel]; [lia|].
    destruct Hlo as [Hlo|]; [|discriminate].
    pose proof (pow16_pos k) as Hp.
    cbn [pow16] in Hn, Hlo.
    assert (Hq : pow16 k <= n / 16 < 16 * pow16 k).
    { split; [apply Z.div_le_lower_bound; lia
             | apply Z.div_lt_upper_bound; lia]. }
    pose proof (Z.mod_pos_bound n 16 eq_refl) as Hm.
    pose proof (Z.div_mod n 16 ltac:(lia)) as Hdm.
    destruct (IH fuel (n / 16) (String (hex_char (n mod 16)) acc))
      as (ds & Hds & Hlen & Hval); [lia | cbn [pow16]; lia | left; lia |].
    exists (ds ++ String (hex_char (n mod 16)) EmptyString)%string.
    cbn [printNumber16].
    destruct (Z.eqb_spec (n / 16) 0) as [E|_]; [lia|].
    rewrite Hds, str_append_snoc, str_length_snoc, Hlen.
    split; [reflexivity|]. split; [reflexivity|].
    intros a r. rewrite str_append_snoc, Hval. cbn [hex_value].
    rewrite hex_digit_roundtrip by lia. f_equal. cbn [pow16]. lia.
Qed.

Lemma hex_leading_zero (r : string) :
  hex_value 0 (String "0" r) = hex_value 0 r.
Proof. reflexivity. Qed.

Ltac hex_case k v :=
  let ds := fresh "ds" in
  let Hp := fresh "Hp" in
  let Hl := fresh "Hl" in
  let Hval := fresh "Hval" in
  destruct (printNumber16_digits k 32 v EmptyString)
    as (ds & Hp & Hl & Hval);
  [ lia
  | cbn [pow16]; lia
  | first [ left; cbn [pow16]; lia | right; reflexivity ]
  | rewrite str_append_nil in Hp;
    eexists; split; [reflexivity|];
    unfold print_hex; rewrite Hp, str_append_nil;
    cbn [append String.length]; rewrite ?hex_leading_zero, Hl;
    split; [reflexivity|]; split; [|reflexivity];
    specialize (Hval 0 EmptyString); rewrite str_append_nil in Hval;
    rewrite Hval; cbn [hex_value]; f_equal; lia ].

(** X14. [printHex32] prints the name, " = 0x" and then exactly eight
    hexadecimal digits that read back as the 32-bit value: the zeros it
    pads with make up for the digits [println(v, HEX)] leaves out; it
    changes no state. *)
Theorem printHex32_eight_digits :
  forall (name : string) (v : Z) (st : Runner),
    0 <= v < 2 ^ 32 ->
    exists digits : string,
      serial_text (events_of (printHex32 name v st))
      = (name ++ " = 0x" ++ digits)%string
      /\ String.length digits = 8%nat
      /\ hex_value 0 digits = Some v
      /\ state_of (printHex32 name v st) = st.
Proof.
  intros name v st Hv. change (2 ^ 32) with 4294967296 in Hv.
  unfold printHex32, pad_below.
  repeat match goal with
         | |- context [?a <? ?b] => destruct (Z.ltb_spec a b)
         end; try (exfalso; lia).
  all: run_M; cbn [app serial_text].
  all: first [ hex_case 0%nat v | hex_case 1%nat v | hex_case 2%nat v
             | hex_case 3%nat v | hex_case 4%nat v | hex_case 5%nat v
             | hex_case 6%nat v | hex_case 7%nat v ].
Qed.

Lemma printHex32_eight_digits_witness :
  exists digits : string,
    serial_text (events_of (printHex32 "GCONF" 448 run_init))
    = ("GCONF" ++ " = 0x" ++ digits)%string
    /\ String.length digits = 8%nat
    /\ hex_value 0 digits = Some 448
    /\ state_of (printHex32 "GCONF" 448 run_init) = run_init.
Proof.
  apply (printHex32_eight_digits "GCONF" 448 run_init).
  change (2 ^ 32) with 4294967296. lia.
Defined.

Example ex_printHex32 :
  serial_text (events_of (printHex32 "GCONF" 448 run_init))
  = "GCONF = 0x000001C0".
Proof. reflexivity. Qed.

(** ** Pausing a finite move *)

Lemma disabled_ticks (l : list Z) :
  forall st : Runner,
    enabled st = false ->
    rising_edges (events_of (ticks l st)) = 0%nat
    /\ remaining (state_of (ticks l st)) = remaining st
    /\ continuous (state_of (ticks l st)) = continuous st
    /\ enabled (state_of (ticks l st)) = false.
Proof.
  induction l as [|now l IH]; intros st Hen; [cbn; auto|].
  destruct (ticks_cons now l st) as [Hs He]. rewrite Hs, He, rising_edges_app.
  assert (Hq : shouldStep st = false) by (unfold shouldStep; rewrite Hen; reflexivity).
  assert (Hstep : rising_edges (events_of (serviceStepper now st)) = 0%nat
                  /\ remaining (state_of (serviceStepper now st)) = remaining st
                  /\ continuous (state_of (serviceStepper now st)) = continuous st
                  /\ enabled (state_of (serviceStepper now st)) = false).
  { rewrite serviceStepper_eq, Hq.
    destruct (stepHigh st), (deadline_reached now (stepHighUntilUs st));
      cbn; auto. }
  destruct Hstep as (R0 & M0 & C0 & E0).
  destruct (IH _ E0) as (R1 & M1 & C1 & E1).
  rewrite R0, R1, M1, M0, C1, C0. auto.
Qed.

(** X15. Pausing does not lose steps: [enable 0] in the middle of a
    finite move, any ticks while disabled, then [enable 1] write no rising
    edge and leave [remaining] as it was; and under a free-running clock
    the move then runs to its end with exactly the remaining number of
    rising edges. *)
Theorem pause_resume_keeps_count :
  forall (t : nat -> Z) (st : Runner) (paused_ticks : list Z) (n i : nat),
    (forall k : nat, 0 < t (S k) - t k <= 2 ^ 31) ->
    continuous st = false ->
    remaining st = Z.of_nat n ->
    let pause :=
      Line "enable 0" :: map Tick paused_ticks ++ [Line "enable 1"] in
    let resumed := state_of (exec pause st) in
    rising_edges (events_of (exec pause st)) = 0%nat
    /\ remaining resumed = Z.of_nat n
    /\ enabled resumed = true
    /\ exists K : nat, forall k : nat, (K <= k)%nat ->
         rising_edges (events_of (ticks (nows t i k) resumed)) = n
         /\ remaining (state_of (ticks (nows t i k) resumed)) = 0.
Proof.
  intros t st paused_ticks n i gap Hc Hr pause resumed.
  assert (Hoff : handleLine "enable 0" st
                 = (tt, with_enabled false st,
                    [DigitalWrite EN_PIN HIGH; SerialPrint "enable=";
                     SerialPrintlnNum 0])) by reflexivity.
  destruct (disabled_ticks paused_ticks (with_enabled false st) eq_refl)
    as (T0 & Tr & Tc & Te).
  set (s1 := state_of (ticks paused_ticks (with_enabled false st))) in *.
  assert (Hon : handleLine "enable 1" s1
                = (tt, with_enabled true s1,
                   [DigitalWrite EN_PIN LOW; SerialPrint "enable=";
                    SerialPrintlnNum 1])) by reflexivity.
  assert (Cs : state_of (exec pause st)
               = state_of (exec (map Tick paused_ticks ++ [Line "enable 1"])
                                (with_enabled false st))
               /\ events_of (exec pause st)
                  = [DigitalWrite EN_PIN HIGH; SerialPrint "enable=";
                     SerialPrintlnNum 0]
                    ++ events_of (exec (map Tick paused_ticks
                                        ++ [Line "enable 1"])
                                       (with_enabled false st))).
  { subst pause.
    destruct (exec_cons (Line "enable 0")
                (map Tick paused_ticks ++ [Line "enable 1"]) st) as [C1 C2].
    rewrite C1, C2. cbn [step_input]. rewrite Hoff. split; reflexivity. }
  destruct Cs as [Cs Ce].
  destruct (exec_app (map Tick paused_ticks) [Line "enable 1"]
              (with_enabled false st)) as [As Ae].
  fold (ticks paused_ticks) in As, Ae. fold s1 in As, Ae.
  assert (Os : state_of (exec [Line "enable 1"] s1) = with_enabled true s1
               /\ rising_edges (events_of (exec [Line "enable 1"] s1)) = 0%nat).
  { destruct (exec_cons (Line "enable 1") [] s1) as [O1 O2].
    rewrite O1, O2. cbn [step_input]. rewrite Hon. split; reflexivity. }
  destruct Os as [Os Oe].
  assert (Hres : resumed = with_enabled true s1).
  { subst resumed. rewrite Cs, As, Os. reflexivity. }
  assert (Hev : rising_edges (events_of (exec pause st)) = 0%nat).
  { rewrite Ce, Ae, !rising_edges_app, T0, Oe. reflexivity. }
  split; [exact Hev|].
  assert (Hrem : remaining resumed = Z.of_nat n).
  { rewrite Hres. cbn. rewrite Tr. exact Hr. }
  split; [exact Hrem|]. split; [rewrite Hres; reflexivity|].
  apply (finite_run_completes t gap n resumed i).
  - rewrite Hres. reflexivity.
  - rewrite Hres. cbn. rewrite Tc. exact Hc.
  - exact Hrem.
Qed.

Lemma pause_resume_keeps_count_witness :
  let st := state_of (ticks [0; 3] (state_of (do_move 4 500 run_init))) in
  let resumed :=
    state_of (exec (Line "enable 0" :: map Tick [2000; 4000]
                    ++ [Line "enable 1"]) st) in
  remaining resumed = 3
  /\ exists K : nat, forall k : nat, (K <= k)%nat ->
       rising_edges (events_of
         (ticks (nows (fun j => 500 * Z.of_nat j) 20 k) resumed)) = 3%nat
       /\ remaining (state_of
         (ticks (nows (fun j => 500 * Z.of_nat j) 20 k) resumed)) = 0.
Proof.
  assert (Hgap : forall k : nat,
             0 < 500 * Z.of_nat (S k) - 500 * Z.of_nat k <= 2 ^ 31).
  { intros k. change (2 ^ 31) with 2147483648. lia. }
  destruct (pause_resume_keeps_count (fun j => 500 * Z.of_nat j)
              (state_of (ticks [0; 3] (state_of (do_move 4 500 run_init))))
              [2000; 4000] 3 20 Hgap eq_refl eq_refl)
    as (_ & Hrem & _ & Hlive).
  intros st resumed. split; [exact Hrem | exact Hlive].
Defined.
